(** * MultiModal RAG: indexing and retrieval subsystem

    A shallow embedding of the Python sources [utils.py], [ingestion.py],
    [summarizer.py], [vectorstore.py], [rag_chain.py] and [main.py], and the
    properties of the specification that concern them.

    Conventions of the embedding.
    - A Python [str] is the [string] of its UTF-8 bytes.  Its characters
      are counted as Python counts them, by code points: a byte [10xxxxxx]
      continues the character that an earlier byte has begun, every other
      byte begins one ([str_len], [str_prefix]).  Equality, concatenation
      and the order of [str] are those of the bytes.  A [str] with a lone
      surrogate has no such bytes and is not covered.
    - A Python object of type [Any] is a [pyobj].
    - A [dict] keyed by strings is a [gmap string _], a [set] of strings a
      [gset string].
    - A function that may raise returns a [result], or an [outcome] when it
      changes the stores on the way.
    - The files are a map from paths to what they hold, with the paths that
      cannot be written ([Utils.filesystem]).
    - External collaborators (the language model, the embedding store's
      similarity search, [uuid.uuid4]) are parameters of the functions that
      call them. *)

From Stdlib Require Import ZArith Ascii String List Sorting.Sorted.
From stdpp Require Import gmap strings list fin_maps sorting pretty.

(** ** Python values *)

(** [langchain_core.documents.Document] *)
Record document := Document {
  page_content : string;
  metadata : gmap string string
}.

(** The objects that reach the functions below: [None], a [str], a
    [Document], or any other object, known by what [str()] makes of it. *)
Inductive pyobj :=
  | PyNone
  | PyStr (s : string)
  | PyDocument (d : document)
  | PyOther (repr : string).

#[global] Instance document_eq_dec : EqDecision document.
Proof. solve_decision. Defined.

#[global] Instance pyobj_eq_dec : EqDecision pyobj.
Proof. solve_decision. Defined.

(** [langchain_core.messages.HumanMessage]: its content is a string or a
    list of typed parts. *)
Inductive part :=
  | TextPart (text : string)
  | ImageUrlPart (url : string).

Inductive content :=
  | Text (s : string)
  | Parts (parts : list part).

Inductive message :=
  | HumanMessage (c : content).

Definition LF : string := String "010"%char "".

(** Whether the byte [c] continues a character: [10xxxxxx]. *)
Definition continues_char (c : ascii) : bool :=
  match c with
  | Ascii _ _ _ _ _ _ b6 b7 => b7 && negb b6
  end.

(** [len(text)] on a [str]: the number of its characters. *)
Fixpoint str_len (text : string) : nat :=
  match text with
  | EmptyString => 0
  | String c rest => if continues_char c then str_len rest else S (str_len rest)
  end.

(** [text[:n]] on a [str]: the first [n] characters, each with all its
    bytes. *)
Fixpoint str_prefix (n : nat) (text : string) : string :=
  match text with
  | EmptyString => EmptyString
  | String c rest =>
      if continues_char c then String c (str_prefix n rest)
      else
        match n with
        | O => EmptyString
        | S n' => String c (str_prefix n' rest)
        end
  end.

(** [text[:hi]] on a [str], for any integer [hi]: a negative bound counts
    from the end. *)
Definition str_slice_to (text : string) (hi : Z) : string :=
  let n := str_len text in
  let hi := if (hi <? 0)%Z then Z.to_nat (Z.max 0 (hi + Z.of_nat n))
            else Z.to_nat hi in
  str_prefix hi text.

(** ** Exceptions *)

(** The exceptions, by class: [ValueError] (with its subclasses, among them
    [UnicodeDecodeError] and [json.JSONDecodeError]), [OSError],
    [pickle.UnpicklingError], and one class each for what the embedding
    store, its search and the language model raise. *)
Inductive exn :=
  | ValueError
  | OSError
  | UnpicklingError
  | EmbeddingError
  | SearchError
  | GenerationError.

Inductive result (A : Type) :=
  | Ok (a : A)
  | Raise (e : exn).
Arguments Ok {A} a.
Arguments Raise {A} e.

Definition bind {A B} (r : result A) (k : A → result B) : result B :=
  match r with
  | Ok a => k a
  | Raise e => Raise e
  end.

#[global] Instance result_bind : MBind result := λ A B k r, bind r k.

(** ** base64, as far as the program uses it *)

Module Base64.

Definition alphabet : string :=
  "ABCDEFGHIJKLMNOPQRSTUVWXYZabcdefghijklmnopqrstuvwxyz0123456789+/".

(** The character that stands for the 6-bit group [i]. *)
Definition symbol (i : N) : ascii :=
  default "A"%char (String.get (N.to_nat i) alphabet).

(** [base64.b64encode(data).decode("utf-8")]: every three bytes make a group
    of 24 bits that is written as four symbols; one or two bytes left over
    are filled up with zero bits, written as two or three symbols, and
    padded with [=] to four characters. *)
Fixpoint b64encode (data : list Byte.byte) : string :=
  match data with
  | [] => ""
  | [b0] =>
      let n := (Byte.to_N b0 * 16)%N in
      String (symbol (n / 64)) (String (symbol (n mod 64)) "==")
  | [b0; b1] =>
      let n := ((Byte.to_N b0 * 256 + Byte.to_N b1) * 4)%N in
      String (symbol (n / 4096)) (String (symbol (n / 64 mod 64))
        (String (symbol (n mod 64)) "="))
  | b0 :: b1 :: b2 :: rest =>
      let n := (Byte.to_N b0 * 65536 + Byte.to_N b1 * 256 + Byte.to_N b2)%N in
      String (symbol (n / 262144)) (String (symbol (n / 4096 mod 64))
        (String (symbol (n / 64 mod 64)) (String (symbol (n mod 64))
          (b64encode rest))))
  end.

End Base64.

(** ** Regular expressions, as far as [re] is used by [utils.py]

    The expression of the program has classes of ASCII characters and no
    wildcard, so that it matches the characters of a [str] exactly when it
    matches its bytes: no byte of a character outside ASCII is the byte of
    an ASCII character. *)

Module Re.

Inductive class_item :=
  | CChar (c : ascii)
  | CRange (lo hi : ascii).

Inductive regex :=
  | Void
  | Eps
  | Set_ (items : list class_item)
  | Seq (r1 r2 : regex)
  | Alt (r1 r2 : regex)
  | Star (r : regex).

Definition Chr (c : ascii) : regex := Set_ [CChar c].
Definition Plus (r : regex) : regex := Seq r (Star r).

Definition item_has (c : ascii) (it : class_item) : bool :=
  match it with
  | CChar d => Ascii.eqb c d
  | CRange lo hi => (nat_of_ascii lo <=? nat_of_ascii c)%nat
                    && (nat_of_ascii c <=? nat_of_ascii hi)%nat
  end.

Definition class_has (items : list class_item) (c : ascii) : bool :=
  existsb (item_has c) items.

Fixpoint nullable (r : regex) : bool :=
  match r with
  | Void => false
  | Eps => true
  | Set_ _ => false
  | Seq r1 r2 => nullable r1 && nullable r2
  | Alt r1 r2 => nullable r1 || nullable r2
  | Star _ => true
  end.

Fixpoint deriv (c : ascii) (r : regex) : regex :=
  match r with
  | Void => Void
  | Eps => Void
  | Set_ items => if class_has items c then Eps else Void
  | Seq r1 r2 =>
      if nullable r1
      then Alt (Seq (deriv c r1) r2) (deriv c r2)
      else Seq (deriv c r1) r2
  | Alt r1 r2 => Alt (deriv c r1) (deriv c r2)
  | Star r1 => Seq (deriv c r1) (Star r1)
  end.

(** The whole of [s] is a word of [r]. *)
Fixpoint fullmatch (r : regex) (s : string) : bool :=
  match s with
  | EmptyString => nullable r
  | String c s' => fullmatch (deriv c r) s'
  end.

Definition newline : ascii := "010"%char.
Definition carriage_return : ascii := "013"%char.

(** [s] without its last character when that is a newline. *)
Fixpoint strip_final_newline (s : string) : option string :=
  match s with
  | EmptyString => None
  | String c EmptyString => if Ascii.eqb c newline then Some EmptyString else None
  | String c s' => option_map (String c) (strip_final_newline s')
  end.

(** [re.compile("^" r "$").match(s)] as a truth value: without the
    MULTILINE flag, [^] holds at the start only, where [match] begins
    anyway, and [$] holds at the end of the string and just before a
    newline that ends the string. *)
Definition match_to_dollar (r : regex) (s : string) : bool :=
  fullmatch r s
  || match strip_final_newline s with
     | Some s' => fullmatch r s'
     | None => false
     end.

(** The words of a regular expression. *)
Inductive lang : regex -> string -> Prop :=
  | lang_eps : lang Eps ""
  | lang_set items c : class_has items c = true -> lang (Set_ items) (String c "")
  | lang_seq r1 r2 s1 s2 : lang r1 s1 -> lang r2 s2 -> lang (Seq r1 r2) (s1 +:+ s2)
  | lang_alt_l r1 r2 s : lang r1 s -> lang (Alt r1 r2) s
  | lang_alt_r r1 r2 s : lang r2 s -> lang (Alt r1 r2) s
  | lang_star_nil r : lang (Star r) ""
  | lang_star_app r s1 s2 :
      lang r s1 -> lang (Star r) s2 -> lang (Star r) (s1 +:+ s2).

End Re.

(** ** utils.py *)

Module Utils.

Definition b64_class : list Re.class_item :=
  [ Re.CRange "A" "Z"; Re.CRange "a" "z"; Re.CRange "0" "9";
    Re.CChar "+"; Re.CChar "/"; Re.CChar Re.newline; Re.CChar Re.carriage_return ]%char.

(** [^[A-Za-z0-9+/\n\r]+=*$] *)
Definition b64_pattern : Re.regex :=
  Re.Seq (Re.Plus (Re.Set_ b64_class)) (Re.Star (Re.Chr "="%char)).

Definition is_base64_image (text : pyobj) : bool :=
  match text with
  | PyStr text =>
      if (str_len text <? 200)%nat then false
      else Re.match_to_dollar b64_pattern (str_prefix 500 text)
  | _ => false
  end.


(** *** Docstore persistence

    [InMemoryStore] keeps a [dict] in its [store] attribute; the embedding
    of a store is that dictionary. *)

(** [store.yield_keys()]; the keys come in the order of the map, which is
    not the order of insertion of a [dict], and nothing below depends on
    it. *)
Definition yield_keys (store : gmap string pyobj) : list string :=
  (map_to_list store).*1.

(** [store.mget(keys)]: [self.store.get(key)] for each key. *)
Definition mget (store : gmap string pyobj) (keys : list string) : list pyobj :=
  (λ key, default PyNone (store !! key)) <$> keys.

(** [store.mset(key_value_pairs)] *)
Definition mset (store : gmap string pyobj) (pairs : list (string * pyobj))
  : gmap string pyobj :=
  foldl (λ st kv, <[kv.1 := kv.2]> st) store pairs.

Definition is_none (v : pyobj) : bool :=
  match v with PyNone => true | _ => false end.

(** The dictionary [internal] that [save_docstore] builds, one key of the
    store after the other. *)
Definition snapshot_step (store internal : gmap string pyobj) (key : string)
  : gmap string pyobj :=
  match mget store [key] with
  | v :: _ => if is_none v then internal else <[key := v]> internal
  | [] => internal
  end.

Definition snapshot (store : gmap string pyobj) : gmap string pyobj :=
  foldl (snapshot_step store) ∅ (yield_keys store).

(** The files of the program, by what they hold: a pickled dictionary, as
    [save_docstore] writes it, or a JSON list of names, as
    [save_indexed_pdf] writes it. *)
Inductive file :=
  | PickleFile (internal : gmap string pyobj)
  | JsonFile (names : list string).

(** The files by path, a path holding what was written to it last, and the
    paths that cannot be written, where [os.makedirs] or [open] for writing
    raises [OSError].  A failure of reading a file that is there, or of
    writing into a file that has been opened, is not modelled. *)
Record filesystem := Filesystem {
  files : gmap string file;
  write_fails : gset string
}.

(** [os.makedirs(os.path.dirname(path) or ".", exist_ok=True)] followed by
    [with open(path, mode) as f: dump(content, f)] for the modes ["w"] and
    ["wb"]: what the path held is replaced. *)
Definition write_file (path : string) (content : file) (fs : filesystem)
  : result filesystem :=
  if decide (path ∈ write_fails fs) then Raise OSError
  else Ok (Filesystem (<[path := content]> (files fs)) (write_fails fs)).

Definition save_docstore (store : gmap string pyobj) (path : string)
    (fs : filesystem) : result filesystem :=
  let internal := snapshot store in
  write_file path (PickleFile internal) fs.

(** [pickle.load] raises on a file that holds JSON text. *)
Definition load_docstore (path : string) (fs : filesystem)
  : result (gmap string pyobj) :=
  let store : gmap string pyobj := ∅ in
  match files fs !! path with
  | Some (PickleFile internal) =>
      if decide (internal = ∅) then Ok store
      else Ok (mset store (map_to_list internal))
  | Some (JsonFile _) => Raise UnpicklingError
  | None => Ok store
  end.

(** *** Indexed-PDF registry *)

(** [sorted(existing)] on a set of strings: the elements in the order of
    [str], which compares character by character by code point; on UTF-8
    that is the order of the bytes, [String.le]. *)
Definition sorted (existing : gset string) : list string :=
  merge_sort String.le (elements existing).

(** [json.load] on a file opened as UTF-8 text raises a [ValueError] on a
    file that holds a pickle. *)
Definition load_indexed_pdfs (json_path : string) (fs : filesystem)
  : result (gset string) :=
  match files fs !! json_path with
  | Some (JsonFile names) => Ok (list_to_set names)
  | Some (PickleFile _) => Raise ValueError
  | None => Ok ∅
  end.

Definition save_indexed_pdf (filename json_path : string) (fs : filesystem)
  : result filesystem :=
  existing ← load_indexed_pdfs json_path fs;
  let existing := {[filename]} ∪ existing in
  write_file json_path (JsonFile (sorted existing)) fs.

(** *** More helpers *)

(** [encode_image_to_base64(image_path)], with the files that can be read
    as bytes; [None] when there is no file to open. *)
Definition encode_image_to_base64 (image_files : gmap string (list Byte.byte))
    (image_path : string) : option string :=
  Base64.b64encode <$> image_files !! image_path.

(** The text that [truncate] puts after a shortened text: a space and an
    ellipsis. *)
Definition ELLIPSIS : string := " …".

Definition truncate (text : string) (max_len : Z) : string :=
  if (Z.of_nat (str_len text) <=? max_len)%Z then text
  else str_slice_to text max_len +:+ ELLIPSIS.

End Utils.

(** ** ingestion.py *)

Module Ingestion.

(** The value of an attribute that the code reads with [getattr(..., None)]
    and tests with [isinstance]: absent or [None], a [str], [bytes], or
    something else. *)
Inductive attr :=
  | AttrNone
  | AttrStr (s : string)
  | AttrBytes (b : list Byte.byte)
  | AttrOther.

(** The metadata of an element inside a chunk, by the two fields read. *)
Record orig_metadata := OrigMetadata {
  image_base64 : attr;
  image_payload : attr
}.

(** The elements of [unstructured]: a [Table] with its text and its
    [metadata.text_as_html] ([None] when absent), a [CompositeElement] with
    its text and its [metadata.orig_elements] ([None] when absent; an
    element of that list is [None] when it has no [metadata]), or an element
    of another class. *)
Inductive element :=
  | Table (text : string) (text_as_html : option string)
  | CompositeElement (text : string)
      (orig_elements : option (list (option orig_metadata)))
  | OtherElement.

(** What the inner loop of [get_images_base64] appends for one element of
    [orig_elements]. *)
Definition image_of_payload (m : orig_metadata) : list string :=
  match image_payload m with
  | AttrStr payload => if decide (payload = "") then [] else [payload]
  | AttrBytes payload =>
      if decide (payload = []) then [] else [Base64.b64encode payload]
  | _ => []
  end.

Definition image_of (orig : option orig_metadata) : list string :=
  match orig with
  | None => []
  | Some m =>
      match image_base64 m with
      | AttrStr image_b64 =>
          if decide (image_b64 = "") then image_of_payload m else [image_b64]
      | _ => image_of_payload m
      end
  end.

Definition get_images_base64 (chunks : list element) : list string :=
  foldl (λ images chunk,
           match chunk with
           | CompositeElement _ (Some orig_elements) =>
               foldl (λ images orig, images ++ image_of orig) images orig_elements
           | _ => images
           end) [] chunks.

Definition separate_step (acc : list string * list string) (el : element)
  : list string * list string :=
  match el with
  | Table text text_as_html =>
      let html :=
        match text_as_html with
        | Some html => if decide (html = "") then text else html
        | None => text
        end in
      (acc.1, acc.2 ++ [html])
  | CompositeElement text _ => (acc.1 ++ [text], acc.2)
  | OtherElement => acc
  end.

(** [separate_elements(elements)]: [(texts, tables, images)]. *)
Definition separate_elements (elements : list element)
  : list string * list string * list string :=
  let acc := foldl separate_step ([], []) elements in
  let images := get_images_base64 elements in
  (acc.1, acc.2, images).

End Ingestion.

(** ** Python sequences *)

(** [list(range(start, stop, step))]; a zero step raises [ValueError]. *)
Definition py_range (start stop step : Z) : result (list Z) :=
  if (step =? 0)%Z then Raise ValueError
  else
    let count :=
      if (0 <? step)%Z
      then (if (start <? stop)%Z then (stop - start - 1) / step + 1 else 0)%Z
      else (if (stop <? start)%Z then (start - stop - 1) / (- step) + 1 else 0)%Z in
    Ok ((λ k : nat, (start + Z.of_nat k * step)%Z) <$> seq 0 (Z.to_nat count)).

(** A slice bound, brought into [0 .. len]. *)
Definition clamp_index (len : nat) (i : Z) : nat :=
  if (i <? 0)%Z then Z.to_nat (Z.max 0 (i + Z.of_nat len))
  else Z.to_nat (Z.min i (Z.of_nat len)).

(** [l[lo:hi]] *)
Definition py_slice {A} (l : list A) (lo hi : Z) : list A :=
  let lo := clamp_index (length l) lo in
  let hi := clamp_index (length l) hi in
  drop lo (take hi l).

(** ** summarizer.py *)

Module Summarizer.

Definition SUMMARISE_CONCURRENCY : Z := 3.

(** [_TEXT_SUMMARY_PROMPT], rendered for one element. *)
Definition _TEXT_SUMMARY_PROMPT (element : string) : list message :=
  [HumanMessage (Text (
     "You are a document analysis assistant. "
     +:+ "Provide a concise, factual summary of the following text or table element. "
     +:+ "Do NOT add any preamble — go straight to the summary." +:+ LF +:+ LF
     +:+ element))].

Definition _IMAGE_SUMMARY_INSTRUCTION : string :=
  "You are a document analysis assistant. "
  +:+ "Describe this image in detail. If it contains a chart, diagram, or data visual, "
  +:+ "explain the structure, axes, labels, trends, and any key data points. "
  +:+ "Be factual and concise.".

Definition IMAGE_UNAVAILABLE : string := "[Image — summary unavailable]".

Section Model.

(** The language model.  [llm_invoke k msgs] is the outcome of the call made
    for unit number [k] of the input with the messages [msgs]: the text of
    the answer, or [None] when the call raises.  Every unit is submitted
    once, so its number identifies the call; the outcome may differ from one
    call to the next even on equal messages. *)
Variable llm_invoke : nat → list message → option string.

(** [chain = _TEXT_SUMMARY_PROMPT | _llm() | StrOutputParser()] on one input. *)
Definition chain_invoke (k : nat) (element : string) : option string :=
  llm_invoke k (_TEXT_SUMMARY_PROMPT element).

(** [chain.batch(inputs, ...)] for the inputs that start at unit [k]: the
    results in the order of the inputs, or the exception of a failed call. *)
Fixpoint chain_batch (k : nat) (inputs : list string) : option (list string) :=
  match inputs with
  | [] => Some []
  | element :: inputs' =>
      match chain_invoke k element, chain_batch (S k) inputs' with
      | Some r, Some rs => Some (r :: rs)
      | _, _ => None
      end
  end.

(** One turn of the loop of [summarise_texts], for the batch at [i]. *)
Definition summarise_step (texts : list string) (concurrency : Z)
    (summaries : list string) (i : Z) : list string :=
  let batch := py_slice texts i (i + concurrency) in
  match chain_batch (Z.to_nat i) batch with
  | Some results => summaries ++ results
  | None => summaries ++ (str_prefix 500 <$> batch)
  end.

Definition summarise_texts (texts : list string) (concurrency : Z)
  : result (list string) :=
  match texts with
  | [] => Ok []
  | _ =>
      starts ← py_range 0 (Z.of_nat (length texts)) concurrency;
      Ok (foldl (summarise_step texts concurrency) [] starts)
  end.

Definition summarise_tables (tables : list string) (concurrency : Z)
  : result (list string) :=
  summarise_texts tables concurrency.

(** The message that carries one image. *)
Definition image_message (img_b64 : string) : message :=
  HumanMessage (Parts [
    TextPart _IMAGE_SUMMARY_INSTRUCTION;
    ImageUrlPart ("data:image/jpeg;base64," +:+ img_b64) ]).

(** [enumerate(xs, start)] *)
Definition enumerate {A} (xs : list A) (start : nat) : list (nat * A) :=
  zip (seq start (length xs)) xs.

(** One turn of the loop of [summarise_images]; the state is the list of
    summaries and the calls made to the model so far. *)
Definition image_step (st : list string * list (list message))
    (item : nat * string) : list string * list (list message) :=
  let request := [image_message item.2] in
  match llm_invoke item.1 request with
  | Some content => (st.1 ++ [content], st.2 ++ [request])
  | None => (st.1 ++ [IMAGE_UNAVAILABLE], st.2 ++ [request])
  end.

Definition summarise_images_run (images_b64 : list string)
  : list string * list (list message) :=
  match images_b64 with
  | [] => ([], [])
  | _ => foldl image_step ([], []) (enumerate images_b64 1)
  end.

Definition summarise_images (images_b64 : list string) : list string :=
  (summarise_images_run images_b64).1.

End Model.

End Summarizer.

(** ** vectorstore.py *)

Module VectorStore.

Definition _ID_KEY : string := "doc_id".

(** What a call has done to the stores, in the order of the effects. *)
Inductive event :=
  | AddDocuments (docs : list document)
  | Mset (pairs : list (string * pyobj))
  | WriteDocstore (path : string) (internal : gmap string pyobj).

(** The state that the indexing and retrieval functions share: the records
    of the Chroma collection in the order of insertion, the dictionary of
    the [InMemoryStore], the files, the number of identifiers drawn from
    [uuid.uuid4] so far, and the effects so far. *)
Record world := World {
  chroma : list document;
  docstore : gmap string pyobj;
  disk : Utils.filesystem;
  uuids_drawn : nat;
  trace : list event
}.

Definition draw_uuids (n : nat) (w : world) : world :=
  World (chroma w) (docstore w) (disk w) (uuids_drawn w + n) (trace w).

Definition docstore_mset (pairs : list (string * pyobj)) (w : world) : world :=
  World (chroma w) (Utils.mset (docstore w) pairs) (disk w) (uuids_drawn w)
        (trace w ++ [Mset pairs]).

(** The state that a call leaves behind, and the exception that ended it,
    if one did. *)
Definition outcome : Type := world * option exn.

Definition and_then (o : outcome) (k : world → outcome) : outcome :=
  match o.2 with
  | None => k o.1
  | Some _ => o
  end.

Definition docstore_save (path : string) (w : world) : outcome :=
  match Utils.save_docstore (docstore w) path (disk w) with
  | Ok fs =>
      (World (chroma w) (docstore w) fs (uuids_drawn w)
             (trace w ++ [WriteDocstore path (Utils.snapshot (docstore w))]),
       None)
  | Raise e => (w, Some e)
  end.

(** [MultiVectorRetriever], by the fields that [get_retriever] sets. *)
Record retriever := Retriever {
  id_key : string;
  search_k : nat
}.

(** [search_kwargs or {"k": 6}]; the argument is the [k] of the given
    dictionary, [None] for no dictionary or an empty one. *)
Definition get_retriever (search_kwargs : option nat) : retriever :=
  Retriever _ID_KEY (default 6 search_kwargs).

Section Model.

(** [str(uuid.uuid4())]: the [n]-th identifier handed out. *)
Variable uuid4 : nat → string.

(** Whether the embedding store takes the records (the embedding call
    succeeds); otherwise [add_documents] raises. *)
Variable embeddings_ok : list document → bool.

(** [vectorstore.similarity_search(query, k)] over the records of the
    collection: the matches, or [None] when the call raises. *)
Variable similarity_search : list document → string → nat → option (list document).

Definition add_documents (docs : list document) (w : world) : outcome :=
  if embeddings_ok docs
  then (World (chroma w ++ docs) (docstore w) (disk w) (uuids_drawn w)
              (trace w ++ [AddDocuments docs]), None)
  else (w, Some EmbeddingError).

(** [[str(uuid.uuid4()) for _ in summaries]] *)
Definition fresh_ids {A} (summaries : list A) (w : world) : list string :=
  (λ n, uuid4 (uuids_drawn w + n)) <$> seq 0 (length summaries).

(** [[Document(page_content=s, metadata={_ID_KEY: doc_ids[i]})
      for i, s in enumerate(summaries)]]; [doc_ids] has an entry for every
    index of [summaries]. *)
Definition summary_docs (doc_ids summaries : list string) : list document :=
  imap (λ i s, Document s {[ _ID_KEY := default "" (doc_ids !! i) ]}) summaries.

Definition add_texts_to_store (w : world) (summaries originals : list string)
    (docstore_path : string) : outcome :=
  match summaries with
  | [] => (w, None)
  | _ =>
      let doc_ids := fresh_ids summaries w in
      let w := draw_uuids (length summaries) w in
      and_then (add_documents (summary_docs doc_ids summaries) w) (λ w,
        let w := docstore_mset (zip doc_ids (PyStr <$> originals)) w in
        docstore_save docstore_path w)
  end.

Definition add_images_to_store (w : world) (image_summaries images_b64 : list string)
    (docstore_path : string) : outcome :=
  match image_summaries with
  | [] => (w, None)
  | _ =>
      let doc_ids := fresh_ids image_summaries w in
      let w := draw_uuids (length image_summaries) w in
      and_then (add_documents (summary_docs doc_ids image_summaries) w) (λ w,
        let w := docstore_mset (zip doc_ids (PyStr <$> images_b64)) w in
        docstore_save docstore_path w)
  end.

Definition index_all (w : world)
    (text_summaries texts table_summaries tables image_summaries images_b64 : list string)
    (docstore_path : string) : outcome :=
  and_then (add_texts_to_store w text_summaries texts docstore_path) (λ w,
  and_then (add_texts_to_store w table_summaries tables docstore_path) (λ w,
  add_images_to_store w image_summaries images_b64 docstore_path)).

(** The identifiers of the matches, each once, in the order of the matches
    (the loop of [MultiVectorRetriever._get_relevant_documents]). *)
Definition matched_ids (key : string) (sub_docs : list document) : list string :=
  foldl (λ ids d,
           match metadata d !! key with
           | Some id => if decide (id ∈ ids) then ids else ids ++ [id]
           | None => ids
           end) [] sub_docs.

(** [retriever.invoke(query)] for the retriever of [get_retriever]:
    similarity search, [docstore.mget] on the identifiers of the matches,
    and [[d for d in docs if d is not None]]. *)
Definition retriever_invoke (r : retriever) (w : world) (query : string)
  : result (list pyobj) :=
  match similarity_search (chroma w) query (search_k r) with
  | None => Raise SearchError
  | Some sub_docs =>
      let ids := matched_ids (id_key r) sub_docs in
      let docs := Utils.mget (docstore w) ids in
      Ok (List.filter (λ d, negb (Utils.is_none d)) docs)
  end.

End Model.

End VectorStore.

(** ** rag_chain.py *)

Module RagChain.

(** [doc if isinstance(doc, str) else getattr(doc, "page_content", str(doc))];
    an object other than a [Document] has no [page_content], and [str()]
    makes ["None"] of [None]. *)
Definition doc_content (doc : pyobj) : string :=
  match doc with
  | PyStr s => s
  | PyDocument d => page_content d
  | PyNone => "None"
  | PyOther repr => repr
  end.

Record parsed := Parsed {
  texts : list string;
  images : list string
}.

Definition parse_step (acc : parsed) (doc : pyobj) : parsed :=
  let content := doc_content doc in
  if Utils.is_base64_image (PyStr content)
  then Parsed (texts acc) (images acc ++ [content])
  else Parsed (texts acc ++ [content]) (images acc).

Definition parse_docs (docs : list pyobj) : parsed :=
  foldl parse_step (Parsed [] []) docs.

Definition build_prompt (p : parsed) (question : string) : list message :=
  let context_text :=
    match texts p with
    | [] => ""
    | _ => String.concat (LF +:+ LF +:+ "---" +:+ LF +:+ LF) (texts p)
    end in
  let instruction :=
    "You are a knowledgeable assistant. Answer the user's question using ONLY "
    +:+ "the provided context (text, tables, and images). If the context does not "
    +:+ "contain the answer, say so honestly." +:+ LF +:+ LF in
  let instruction :=
    if decide (context_text = "") then instruction
    else instruction +:+ "CONTEXT:" +:+ LF +:+ context_text +:+ LF +:+ LF in
  let instruction := instruction +:+ "QUESTION:" +:+ LF +:+ question in
  [HumanMessage (Parts (
     TextPart instruction
     :: ((λ img_b64, ImageUrlPart ("data:image/jpeg;base64," +:+ img_b64))
           <$> images p)))].

Record answer_with_sources := AnswerWithSources {
  answer : string;
  sources : list string;
  image_count : nat
}.

Section Chain.

(** [retriever.invoke(question)]: the documents, or the exception raised. *)
Variable retriever_invoke : string → result (list pyobj).

(** [llm.invoke(prompt).content], or [None] when the call raises. *)
Variable llm_invoke : list message → option string.

(** The function [_answer_and_sources] of [build_rag_chain_with_sources], on a
    question given as a string. *)
Definition _answer_and_sources (question : string) : result answer_with_sources :=
  raw_docs ← retriever_invoke question;
  let p := parse_docs raw_docs in
  let prompt := build_prompt p question in
  match llm_invoke prompt with
  | Some response => Ok (AnswerWithSources response (texts p) (length (images p)))
  | None => Raise GenerationError
  end.

(** [build_rag_chain(retriever)]: retrieve, parse, build the prompt, call
    the model, and give the text of the answer. *)
Definition build_rag_chain (question : string) : result string :=
  raw_docs ← retriever_invoke question;
  let docs := parse_docs raw_docs in
  match llm_invoke (build_prompt docs question) with
  | Some response => Ok response
  | None => Raise GenerationError
  end.

(** [build_rag_chain_with_sources(retriever)]: the chain that runs
    [_answer_and_sources]. *)
Definition build_rag_chain_with_sources : string → result answer_with_sources :=
  _answer_and_sources.

End Chain.

End RagChain.

(** ** main.py *)

Module Main.

Section Upload.

Variable uuid4 : nat → string.
Variable embeddings_ok : list document → bool.

(** The model, for each of the three calls of the summariser. *)
Variable llm_texts llm_tables llm_images : nat → list message → option string.

(** [DOCSTORE_PATH] and [INDEXED_PDFS_PATH] of [config.py], which depend on
    the environment. *)
Variable DOCSTORE_PATH INDEXED_PDFS_PATH : string.

(** [save_indexed_pdf(filename, INDEXED_PDFS_PATH)] on the files of [w]. *)
Definition register_pdf (filename : string) (w : VectorStore.world)
  : VectorStore.outcome :=
  match Utils.save_indexed_pdf filename INDEXED_PDFS_PATH (VectorStore.disk w) with
  | Ok fs =>
      (VectorStore.World (VectorStore.chroma w) (VectorStore.docstore w) fs
         (VectorStore.uuids_drawn w) (VectorStore.trace w), None)
  | Raise e => (w, Some e)
  end.

(** The three steps of [_upload_pdf] on the partitioned elements: separate,
    summarise, index, and then enter the name in the registry. *)
Definition upload_elements (filename : string) (elements : list Ingestion.element)
    (w : VectorStore.world) : VectorStore.outcome :=
  let '(texts, tables, images) := Ingestion.separate_elements elements in
  match Summarizer.summarise_texts llm_texts texts Summarizer.SUMMARISE_CONCURRENCY with
  | Raise e => (w, Some e)
  | Ok text_summaries =>
      match Summarizer.summarise_tables llm_tables tables
              Summarizer.SUMMARISE_CONCURRENCY with
      | Raise e => (w, Some e)
      | Ok table_summaries =>
          let image_summaries := Summarizer.summarise_images llm_images images in
          VectorStore.and_then
            (VectorStore.index_all uuid4 embeddings_ok w
               text_summaries texts table_summaries tables image_summaries images
               DOCSTORE_PATH)
            (register_pdf filename)
      end
  end.

(** [_upload_pdf()], given what it asks of the outside: whether the path is
    a file, the base name of the path, the answer to the question whether to
    index again (asked only when the name is in the registry), and the
    elements that [partition_pdf_document] returns or the exception it
    raises. *)
Definition _upload_pdf (is_file : bool) (filename : string) (re_index : string)
    (partitioned : result (list Ingestion.element)) (w : VectorStore.world)
  : VectorStore.outcome :=
  if negb is_file then (w, None)
  else
    match Utils.load_indexed_pdfs INDEXED_PDFS_PATH (VectorStore.disk w) with
    | Raise e => (w, Some e)
    | Ok already_indexed =>
        if bool_decide (filename ∈ already_indexed)
           && negb (bool_decide (re_index = "y"))
        then (w, None)
        else
          match partitioned with
          | Raise e => (w, Some e)
          | Ok elements => upload_elements filename elements w
          end
    end.

End Upload.

(** [_boot()]: the stores of a program that starts with the files and the
    Chroma collection that [w] has on disk.  The collection is the persistent
    one; the docstore is loaded from the file. *)
Definition _boot (DOCSTORE_PATH : string) (w : VectorStore.world)
  : result VectorStore.world :=
  docstore ← Utils.load_docstore DOCSTORE_PATH (VectorStore.disk w);
  Ok (VectorStore.World (VectorStore.chroma w) docstore
        (VectorStore.disk w) (VectorStore.uuids_drawn w) (VectorStore.trace w)).

End Main.

(** ** Vocabulary of the properties *)

(** Every character of [s] satisfies [p]. *)
Fixpoint all_chars (p : ascii → bool) (s : string) : bool :=
  match s with
  | EmptyString => true
  | String c s' => p c && all_chars p s'
  end.

(** [c * n] for a character [c]. *)
Fixpoint repeat_char (c : ascii) (n : nat) : string :=
  match n with
  | O => ""
  | S n' => String c (repeat_char c n')
  end.

(** The letters, the digits, [+] and [/]. *)
Definition b64_symbol (c : ascii) : bool :=
  Re.class_has [ Re.CRange "A" "Z"; Re.CRange "a" "z"; Re.CRange "0" "9";
                 Re.CChar "+"; Re.CChar "/" ]%char c.

(** The letters, the digits, [+], [/] and [=]. *)
Definition b64_symbol_or_pad (c : ascii) : bool :=
  b64_symbol c || Ascii.eqb c "="%char.

(** The number that a symbol of the base64 alphabet stands for: its place
    in the alphabet. *)
Fixpoint place_in (c : ascii) (s : string) (i : N) : option N :=
  match s with
  | EmptyString => None
  | String d s' => if Ascii.eqb c d then Some i else place_in c s' (N.succ i)
  end.

Definition symbol_value (c : ascii) : option N := place_in c Base64.alphabet 0.

Definition byte_of_N (n : N) : Byte.byte := default Byte.x00 (Byte.of_N n).

(** The bytes that a base64 text stands for (RFC 4648, section 4): four
    symbols stand for three bytes; at the end of the text two symbols and
    [==] stand for one byte, and three symbols and [=] for two.  A text of
    another form stands for nothing. *)
Fixpoint b64_bytes (s : string) : option (list Byte.byte) :=
  match s with
  | EmptyString => Some []
  | String a (String b (String c (String d rest))) =>
      match symbol_value a, symbol_value b with
      | Some va, Some vb =>
          match symbol_value c, symbol_value d with
          | Some vc, Some vd =>
              let n := (va * 262144 + vb * 4096 + vc * 64 + vd)%N in
              option_map
                (λ bytes, byte_of_N (n / 65536) :: byte_of_N (n / 256 mod 256)
                          :: byte_of_N (n mod 256) :: bytes)
                (b64_bytes rest)
          | Some vc, None =>
              if Ascii.eqb d "=" && String.eqb rest ""
              then
                let n := (va * 4096 + vb * 64 + vc)%N in
                Some [byte_of_N (n / 1024); byte_of_N (n / 4 mod 256)]
              else None
          | None, _ =>
              if Ascii.eqb c "=" && Ascii.eqb d "=" && String.eqb rest ""
              then Some [byte_of_N ((va * 64 + vb) / 16)]
              else None
          end
      | _, _ => None
      end
  | _ => None
  end.

(** The entry of [store] at [k] that is worth saving: a value other than
    [None]. *)
Definition kept (store : gmap string pyobj) (k : string) : option pyobj :=
  match store !! k with
  | Some v => if Utils.is_none v then None else Some v
  | None => None
  end.

(** The test of [parse_docs] on the content of a document. *)
Definition is_image_content (content : string) : bool :=
  Utils.is_base64_image (PyStr content).
Local Arguments is_image_content : simpl never.


(** What a turn of the loop appends for the batch that starts at unit
    [start]: the results of the batch call, or the shortened inputs. *)
Definition batch_output (llm_invoke : nat → list message → option string)
    (start : nat) (batch : list string) : list string :=
  match Summarizer.chain_batch llm_invoke start batch with
  | Some results => results
  | None => str_prefix 500 <$> batch
  end.

(** [texts[k * size : k * size + size]] *)
Definition chunk (texts : list string) (size k : nat) : list string :=
  drop (k * size) (take (k * size + size) texts).

(** The summaries after the first [k] turns of the loop of
    [summarise_texts]. *)
Definition loop_out (llm_invoke : nat → list message → option string)
    (texts : list string) (concurrency : Z) (k : nat) : list string :=
  foldl (Summarizer.summarise_step llm_invoke texts concurrency) []
        ((λ j : nat, (0 + Z.of_nat j * concurrency)%Z) <$> seq 0 k).

(** The number of turns of that loop for a positive [concurrency]. *)
Definition turns (texts : list string) (concurrency : Z) : nat :=
  Z.to_nat ((Z.of_nat (length texts) - 0 - 1) / concurrency + 1).


(** A model that answers every call but the one for unit 1. *)
Definition unit_1_fails (k : nat) (_ : list message) : option string :=
  if decide (k = 1) then None else Some "summary".

(** An empty collection, an empty docstore, no files, no identifier drawn. *)
Definition empty_world : VectorStore.world :=
  VectorStore.World [] ∅ (Utils.Filesystem ∅ ∅) 0 [].

(** The same, where the file of the docstore cannot be written. *)
Definition read_only_world : VectorStore.world :=
  VectorStore.World [] ∅ (Utils.Filesystem ∅ {[ "docstore.pkl" ]}) 0 [].

(** A similarity search that returns the first [k] records. *)
Definition first_records (records : list document) (_ : string) (k : nat)
  : option (list document) :=
  Some (take k records).

(** A collection with one record whose identifier the docstore does not
    have. *)
Definition desynced_world : VectorStore.world :=
  VectorStore.World
    [Document "Revenue summary" {[ VectorStore._ID_KEY := "id-1" ]}]
    ∅ (Utils.Filesystem ∅ ∅) 1 [].

(** [s] begins with the first byte of a character, or is empty, as the
    bytes of a [str] always are. *)
Definition begins_whole (s : string) : bool :=
  match s with
  | EmptyString => true
  | String c _ => negb (continues_char c)
  end.

(** The characters that the pattern of [is_base64_image] lets through: those
    of its class, and [=]. *)
Definition b64_allowed (c : ascii) : bool :=
  Re.class_has Utils.b64_class c || Ascii.eqb c "="%char.

(** A record of the embedding store resolves when its metadata has an
    identifier under [doc_id] and the docstore has a value other than [None]
    for it, which is what the retriever returns for the record. *)
Definition resolves (w : VectorStore.world) (d : document) : Prop :=
  ∃ id v, metadata d !! VectorStore._ID_KEY = Some id
          ∧ kept (VectorStore.docstore w) id = Some v.

(** Every record of the embedding store resolves. *)
Definition linked (w : VectorStore.world) : Prop :=
  ∀ d, d ∈ VectorStore.chroma w → resolves w d.

(** The file at [path] holds the docstore as it is in memory, but for the
    entries whose value is [None]. *)
Definition persisted (path : string) (w : VectorStore.world) : Prop :=
  Utils.load_docstore path (VectorStore.disk w)
  = Ok (Utils.snapshot (VectorStore.docstore w)).

(** What a call may do to the stores of [w] on the way to [w']: add records
    to the embedding store behind the ones that are there, and write the file
    at [path]. *)
Definition extends (path : string) (w w' : VectorStore.world) : Prop :=
  VectorStore.chroma w `prefix_of` VectorStore.chroma w'
  ∧ Utils.write_fails (VectorStore.disk w') = Utils.write_fails (VectorStore.disk w)
  ∧ ∀ p, p ≠ path →
      Utils.files (VectorStore.disk w') !! p = Utils.files (VectorStore.disk w) !! p.


(** What [separate_elements] takes from one element for each of its three
    lists. *)
Definition element_text (el : Ingestion.element) : option string :=
  match el with
  | Ingestion.CompositeElement text _ => Some text
  | _ => None
  end.

Definition element_table (el : Ingestion.element) : option string :=
  match el with
  | Ingestion.Table text (Some html) => Some (if decide (html = "") then text else html)
  | Ingestion.Table text None => Some text
  | _ => None
  end.

Definition element_images (el : Ingestion.element) : list string :=
  match el with
  | Ingestion.CompositeElement _ (Some orig_elements) =>
      orig_elements ≫= Ingestion.image_of
  | _ => []
  end.

(** * Properties *)

(** ** Strings *)

Lemma str_app_nil_l (s : string) : "" +:+ s = s.
Proof. reflexivity. Qed.

Lemma str_app_cons (c : ascii) (s1 s2 : string) :
  String c s1 +:+ s2 = String c (s1 +:+ s2).
Proof. reflexivity. Qed.

Lemma str_app_nil_r (s : string) : s +:+ "" = s.
Proof. induction s as [|c s IH]; [done|]. by rewrite str_app_cons, IH. Qed.

Lemma str_app_assoc (s1 s2 s3 : string) : (s1 +:+ s2) +:+ s3 = s1 +:+ (s2 +:+ s3).
Proof. induction s1 as [|c s1 IH]; [done|]. by rewrite !str_app_cons, IH. Qed.

Lemma str_app_eq_nil (s1 s2 : string) : s1 +:+ s2 = "" → s1 = "" ∧ s2 = "".
Proof. destruct s1; [done|]. rewrite str_app_cons. discriminate. Qed.

Lemma str_app_length (s1 s2 : string) :
  String.length (s1 +:+ s2) = String.length s1 + String.length s2.
Proof.
  induction s1 as [|c s1 IH]; [done|]. rewrite str_app_cons. cbn. by rewrite IH.
Qed.

Lemma str_len_app (s1 s2 : string) : str_len (s1 +:+ s2) = str_len s1 + str_len s2.
Proof.
  induction s1 as [|c s1 IH]; [done|]. rewrite str_app_cons. cbn [str_len].
  rewrite IH. by destruct (continues_char c).
Qed.

Lemma str_len_le (s : string) : str_len s ≤ String.length s.
Proof.
  induction s as [|c s IH]; [done|]. cbn [str_len String.length].
  destruct (continues_char c); lia.
Qed.

Lemma str_prefix_all (n : nat) (s : string) : str_len s ≤ n → str_prefix n s = s.
Proof.
  revert n. induction s as [|c s IH]; intros n; [done|]. cbn [str_len str_prefix].
  destruct (continues_char c).
  - intros Hn. f_equal. by apply IH.
  - destruct n as [|n]; [lia|]. intros Hn. f_equal. apply IH. lia.
Qed.

Lemma str_prefix_length (n : nat) (s : string) :
  str_len (str_prefix n s) = n `min` str_len s.
Proof.
  revert n. induction s as [|c s IH]; intros n; cbn [str_len str_prefix].
  - by rewrite Nat.min_0_r.
  - destruct (continues_char c) eqn:Hc.
    + cbn [str_len]. rewrite Hc. apply IH.
    + destruct n as [|n]; [done|]. cbn [str_len]. rewrite Hc, IH. lia.
Qed.


(** The first [n] characters of two texts put together: those of the first
    text when it has more than [n], and otherwise the whole of it and the
    characters of the second that are still wanted. *)
Lemma str_prefix_app (n : nat) (s1 s2 : string) :
  str_prefix n (s1 +:+ s2)
  = if decide (n < str_len s1) then str_prefix n s1
    else s1 +:+ str_prefix (n - str_len s1) s2.
Proof.
  revert n. induction s1 as [|c s1 IH]; intros n.
  - rewrite str_app_nil_l. cbn [str_len].
    rewrite decide_False by lia. by rewrite Nat.sub_0_r.
  - rewrite str_app_cons. cbn [str_prefix str_len].
    destruct (continues_char c).
    + rewrite IH. destruct (decide (n < str_len s1)); [done|].
      by rewrite str_app_cons.
    + destruct n as [|n].
      * by rewrite decide_True by lia.
      * rewrite IH.
        destruct (decide (n < str_len s1)), (decide (S n < S (str_len s1)));
          try lia; [done|]. by rewrite str_app_cons.
Qed.

Lemma str_prefix_nonempty (n : nat) (s : string) :
  0 < n → s ≠ "" → str_prefix n s ≠ "".
Proof.
  destruct s as [|c s]; [done|]. cbn [str_prefix]. intros Hn _.
  destruct (continues_char c); [done|]. destruct n; [lia|done].
Qed.

(** ** The matcher decides the words of an expression *)

Section Matcher.
Import Re.

Lemma lang_seq_inv (r1 r2 : regex) (s : string) :
  lang (Seq r1 r2) s → ∃ s1 s2, s = s1 +:+ s2 ∧ lang r1 s1 ∧ lang r2 s2.
Proof. inversion 1; subst; eauto. Qed.

Lemma lang_alt_inv (r1 r2 : regex) (s : string) :
  lang (Alt r1 r2) s → lang r1 s ∨ lang r2 s.
Proof. inversion 1; subst; eauto. Qed.

Lemma lang_set_inv (items : list class_item) (s : string) :
  lang (Set_ items) s → ∃ c, s = String c "" ∧ class_has items c = true.
Proof. inversion 1; subst; eauto. Qed.

Lemma nullable_lang (r : regex) : nullable r = true ↔ lang r "".
Proof.
  induction r as [| |items|r1 IH1 r2 IH2|r1 IH1 r2 IH2|r IH]; cbn.
  - split; [done|]. inversion 1.
  - split; [constructor|done].
  - split; [done|]. inversion 1.
  - rewrite andb_true_iff, IH1, IH2. split.
    + intros [H1 H2]. apply (lang_seq _ _ "" ""); done.
    + intros (s1 & s2 & Heq & H1 & H2)%lang_seq_inv.
      symmetry in Heq. apply str_app_eq_nil in Heq as [-> ->]. done.
  - rewrite orb_true_iff, IH1, IH2. split.
    + intros [H|H]; [by apply lang_alt_l|by apply lang_alt_r].
    + apply lang_alt_inv.
  - split; [constructor|done].
Qed.

Lemma lang_star_cons (r : regex) (c : ascii) (s : string) :
  lang (Star r) (String c s) →
  ∃ s1 s2, s = s1 +:+ s2 ∧ lang r (String c s1) ∧ lang (Star r) s2.
Proof.
  intros H. remember (Star r) as r' eqn:Hr. remember (String c s) as w eqn:Hw.
  revert s Hw.
  induction H as [| | | | | |r0 s1 s2 H1 _ H2 IH2]; intros t Hw; try discriminate.
  injection Hr as ->.
  destruct s1 as [|c1 s1]; [by apply IH2|].
  rewrite str_app_cons in Hw. injection Hw as <- <-. eauto.
Qed.

Lemma deriv_lang (c : ascii) (r : regex) (s : string) :
  lang (deriv c r) s ↔ lang r (String c s).
Proof.
  revert s.
  induction r as [| |items|r1 IH1 r2 IH2|r1 IH1 r2 IH2|r IH]; intros s; cbn.
  - split; inversion 1.
  - split; inversion 1.
  - destruct (class_has items c) eqn:Hc; split.
    + inversion 1; subst. by constructor.
    + intros (c' & [= -> ->] & _)%lang_set_inv. constructor.
    + inversion 1.
    + intros (c' & [= -> ->] & ?)%lang_set_inv. congruence.
  - assert (Hseq : ∀ w, lang (Seq (deriv c r1) r2) w → lang (Seq r1 r2) (String c w)).
    { intros w (s1 & s2 & -> & H1 & H2)%lang_seq_inv.
      apply IH1 in H1. apply (lang_seq _ _ (String c s1) s2); done. }
    assert (Hinv : lang (Seq r1 r2) (String c s) →
              lang (Seq (deriv c r1) r2) s ∨ (lang r1 "" ∧ lang r2 (String c s))).
    { intros (s1 & s2 & Heq & H1 & H2)%lang_seq_inv.
      destruct s1 as [|c1 s1].
      - right. rewrite str_app_nil_l in Heq. by subst.
      - rewrite str_app_cons in Heq. injection Heq as -> ->. left.
        apply lang_seq; [by apply IH1|done]. }
    destruct (nullable r1) eqn:Hn; split.
    + intros [H|H]%lang_alt_inv; [by apply Hseq|].
      apply (lang_seq _ _ "" (String c s)); [by apply nullable_lang|by apply IH2].
    + intros [H|[_ H]]%Hinv; [by apply lang_alt_l|]. apply lang_alt_r. by apply IH2.
    + apply Hseq.
    + intros [H|[H _]]%Hinv; [done|]. apply nullable_lang in H. congruence.
  - split.
    + intros [H|H]%lang_alt_inv; [apply lang_alt_l; by apply IH1|apply lang_alt_r; by apply IH2].
    + intros [H|H]%lang_alt_inv; [apply lang_alt_l; by apply IH1|apply lang_alt_r; by apply IH2].
  - split.
    + intros (s1 & s2 & -> & H1 & H2)%lang_seq_inv.
      apply IH in H1. apply (lang_star_app _ (String c s1) s2); done.
    + intros (s1 & s2 & -> & H1 & H2)%lang_star_cons.
      apply lang_seq; [by apply IH|done].
Qed.

Lemma fullmatch_lang (r : regex) (s : string) : fullmatch r s = true ↔ lang r s.
Proof.
  revert r. induction s as [|c s IH]; intros r; cbn.
  - apply nullable_lang.
  - rewrite IH. apply deriv_lang.
Qed.

End Matcher.

(** ** is_base64_image *)

Lemma lang_star_set (items : list Re.class_item) (s : string) :
  all_chars (Re.class_has items) s = true → Re.lang (Re.Star (Re.Set_ items)) s.
Proof.
  induction s as [|c s IH]; cbn; [constructor|].
  intros [Hc Hs]%andb_true_iff.
  change (String c s) with (String c "" +:+ s).
  apply Re.lang_star_app; [by constructor|auto].
Qed.

Lemma lang_plus_set (items : list Re.class_item) (s : string) :
  s ≠ "" → all_chars (Re.class_has items) s = true →
  Re.lang (Re.Plus (Re.Set_ items)) s.
Proof.
  destruct s as [|c s]; [done|]. cbn. intros _ [Hc Hs]%andb_true_iff.
  change (String c s) with (String c "" +:+ s).
  apply Re.lang_seq; [by constructor|by apply lang_star_set].
Qed.

Lemma all_chars_impl (p q : ascii → bool) (s : string) :
  (∀ c, p c = true → q c = true) → all_chars p s = true → all_chars q s = true.
Proof.
  intros Hpq. induction s as [|c s IH]; cbn; [done|].
  intros [Hc Hs]%andb_true_iff. rewrite (Hpq c Hc). auto.
Qed.

Lemma all_chars_repeat (p : ascii → bool) (c : ascii) (n : nat) :
  p c = true → all_chars p (repeat_char c n) = true.
Proof. intros Hc. induction n as [|n IH]; cbn; [done|]. by rewrite Hc. Qed.

Lemma repeat_char_length (c : ascii) (n : nat) : String.length (repeat_char c n) = n.
Proof. induction n as [|n IH]; cbn; [done|]. by rewrite IH. Qed.

Lemma b64_symbol_in_class (c : ascii) :
  b64_symbol c = true → Re.class_has Utils.b64_class c = true.
Proof.
  unfold b64_symbol, Utils.b64_class, Re.class_has. cbn [existsb].
  rewrite !orb_true_iff. tauto.
Qed.

(** A letter, a digit, [+] or [/] is a character of one byte. *)
Lemma b64_symbol_begins (c : ascii) : b64_symbol c = true → continues_char c = false.
Proof. destruct c as [[] [] [] [] [] [] [] []]; vm_compute; congruence. Qed.

Lemma str_len_symbols (s : string) :
  all_chars b64_symbol s = true → str_len s = String.length s.
Proof.
  induction s as [|c s IH]; [done|]. cbn [all_chars str_len String.length].
  intros [Hc Hs]%andb_true_iff. rewrite (b64_symbol_begins c Hc). by rewrite IH.
Qed.

Lemma str_len_repeat (c : ascii) (n : nat) :
  continues_char c = false → str_len (repeat_char c n) = n.
Proof. intros Hc. induction n as [|n IH]; cbn; [done|]. by rewrite Hc, IH. Qed.

Lemma str_prefix_repeat (n m : nat) (c : ascii) :
  continues_char c = false →
  str_prefix n (repeat_char c m) = repeat_char c (n `min` m).
Proof.
  intros Hc. revert n. induction m as [|m IH]; intros n; cbn [repeat_char str_prefix].
  - by rewrite Nat.min_0_r.
  - rewrite Hc. destruct n as [|n]; [done|]. cbn. by rewrite IH.
Qed.

Lemma all_chars_prefix (p : ascii → bool) (n : nat) (s : string) :
  all_chars p s = true → all_chars p (str_prefix n s) = true.
Proof.
  revert n. induction s as [|c s IH]; intros n; [done|]. cbn [all_chars str_prefix].
  intros [Hc Hs]%andb_true_iff.
  destruct (continues_char c); [cbn; rewrite Hc; by apply IH|].
  destruct n as [|n]; [done|]. cbn. rewrite Hc. by apply IH.
Qed.

(** A run of symbols of the class followed by padding is a word of the
    pattern. *)
Lemma b64_pattern_padded (body : string) (n : nat) :
  body ≠ "" → all_chars b64_symbol body = true →
  Re.fullmatch Utils.b64_pattern (body +:+ repeat_char "=" n) = true.
Proof.
  intros Hne Hbody. apply fullmatch_lang. unfold Utils.b64_pattern.
  apply Re.lang_seq.
  - apply lang_plus_set; [done|].
    eapply all_chars_impl; [apply b64_symbol_in_class|done].
  - apply lang_star_set. by apply all_chars_repeat.
Qed.

(** Symbols followed by padding are classified as an image from 200
    characters on, however long they are. *)
Lemma is_base64_image_padded_long (body : string) (pad : nat) :
  body ≠ "" → all_chars b64_symbol body = true →
  200 ≤ str_len body + pad →
  Utils.is_base64_image (PyStr (body +:+ repeat_char "=" pad)) = true.
Proof.
  intros Hne Hbody Hlen. unfold Utils.is_base64_image.
  assert (Hl : str_len (body +:+ repeat_char "=" pad) = str_len body + pad).
  { by rewrite str_len_app, str_len_repeat. }
  destruct (Nat.ltb_spec (str_len (body +:+ repeat_char "=" pad)) 200); [lia|].
  unfold Re.match_to_dollar. rewrite str_prefix_app.
  destruct (decide (500 < str_len body)).
  - rewrite <- (str_app_nil_r (str_prefix 500 body)).
    change "" with (repeat_char "=" 0).
    rewrite b64_pattern_padded; [done| |by apply all_chars_prefix].
    apply str_prefix_nonempty; [lia|done].
  - rewrite str_prefix_repeat by done. by rewrite b64_pattern_padded.
Qed.

Lemma is_base64_image_short (text : string) :
  str_len text < 200 → Utils.is_base64_image (PyStr text) = false.
Proof.
  intros Hlen. unfold Utils.is_base64_image.
  by destruct (Nat.ltb_spec (str_len text) 200); [|lia].
Qed.

(** C6, as the code has it: a 300-character string made of one or more
    letters, digits, [+] and [/] followed only by [=] padding is classified
    as an image, and a string of fewer than 200 characters never is. *)
Theorem is_base64_image_classification :
  (∀ (body : string) (n : nat),
     body ≠ "" → all_chars b64_symbol body = true →
     str_len body + n = 300 →
     Utils.is_base64_image (PyStr (body +:+ repeat_char "=" n)) = true)
  ∧ (∀ text : string,
       str_len text < 200 → Utils.is_base64_image (PyStr text) = false).
Proof.
  split.
  - intros body n Hne Hbody Hlen. apply is_base64_image_padded_long; [done..|lia].
  - apply is_base64_image_short.
Qed.

Lemma is_base64_image_classification_witness :
  Utils.is_base64_image (PyStr (repeat_char "A" 298 +:+ repeat_char "=" 2)) = true
  ∧ Utils.is_base64_image (PyStr "Revenue grew 10%") = false.
Proof.
  split.
  - apply (proj1 is_base64_image_classification (repeat_char "A" 298) 2);
      [discriminate|reflexivity|reflexivity].
  - apply (proj2 is_base64_image_classification "Revenue grew 10%"). cbn. lia.
Defined.

(** C6 as stated fails: 300 characters, all of them letters, digits, [+],
    [/] or [=], with a [=] that is not at the end, are not classified as an
    image. *)
Lemma is_base64_image_inner_pad_rejected :
  let text := repeat_char "A" 150 +:+ "=" +:+ repeat_char "A" 149 in
  str_len text = 300
  ∧ all_chars b64_symbol_or_pad text = true
  ∧ Utils.is_base64_image (PyStr text) = false.
Proof. vm_compute. done. Qed.

(** ** parse_docs *)

Lemma parse_docs_from (acc : RagChain.parsed) (docs : list pyobj) :
  foldl RagChain.parse_step acc docs =
  RagChain.Parsed
    (RagChain.texts acc
       ++ List.filter (λ c, negb (is_image_content c)) (RagChain.doc_content <$> docs))
    (RagChain.images acc
       ++ List.filter is_image_content (RagChain.doc_content <$> docs)).
Proof.
  revert acc. induction docs as [|doc docs IH]; intros [ts ims]; cbn.
  - by rewrite !app_nil_r.
  - rewrite IH. unfold RagChain.parse_step.
    change (Utils.is_base64_image (PyStr (RagChain.doc_content doc)))
      with (is_image_content (RagChain.doc_content doc)).
    destruct (is_image_content (RagChain.doc_content doc)); cbn;
      by rewrite <- ?app_assoc.
Qed.

Lemma filter_split_length {A} (p : A → bool) (l : list A) :
  length (List.filter (λ x, negb (p x)) l) + length (List.filter p l) = length l.
Proof. induction l as [|x l IH]; cbn; [done|]. destruct (p x); cbn; lia. Qed.



(** ** Docstore persistence *)

Lemma snapshot_step_lookup (store acc : gmap string pyobj) (key k : string) :
  Utils.snapshot_step store acc key !! k =
  if decide (key = k)
  then match kept store k with Some v => Some v | None => acc !! k end
  else acc !! k.
Proof.
  unfold Utils.snapshot_step, Utils.mget, kept. cbn.
  destruct (decide (key = k)) as [->|Hne].
  - destruct (store !! k) as [v|]; cbn; [|done].
    destruct (Utils.is_none v); [done|]. by rewrite lookup_insert_eq.
  - destruct (Utils.is_none (default PyNone (store !! key))); [done|].
    by rewrite lookup_insert_ne.
Qed.

Lemma snapshot_fold_lookup (store acc : gmap string pyobj) (keys : list string)
    (k : string) :
  foldl (Utils.snapshot_step store) acc keys !! k =
  if decide (k ∈ keys)
  then match kept store k with Some v => Some v | None => acc !! k end
  else acc !! k.
Proof.
  revert acc. induction keys as [|key keys IH]; intros acc; cbn [foldl].
  - by rewrite decide_False by apply not_elem_of_nil.
  - rewrite IH, snapshot_step_lookup.
    destruct (decide (key = k)) as [->|Hne].
    + rewrite (decide_True (P := k ∈ k :: keys)) by (apply elem_of_cons; by left).
      destruct (kept store k); by destruct (decide (k ∈ keys)).
    + destruct (decide (k ∈ keys)) as [Hin|Hnin].
      * by rewrite decide_True by (apply elem_of_cons; by right).
      * rewrite decide_False; [done|].
        intros [?|?]%elem_of_cons; [congruence|done].
Qed.

Lemma snapshot_lookup (store : gmap string pyobj) (k : string) :
  Utils.snapshot store !! k = kept store k.
Proof.
  unfold Utils.snapshot. rewrite snapshot_fold_lookup, lookup_empty.
  destruct (decide (k ∈ Utils.yield_keys store)) as [Hin|Hnin];
    [by destruct (kept store k)|].
  unfold kept. destruct (store !! k) as [v|] eqn:Hk; [|done].
  destruct Hnin. unfold Utils.yield_keys.
  apply list_elem_of_fmap. exists (k, v). split; [done|].
  by apply elem_of_map_to_list.
Qed.

Lemma snapshot_filter (store : gmap string pyobj) :
  Utils.snapshot store = filter (λ kv, kv.2 ≠ PyNone) store.
Proof.
  apply map_eq. intros k. rewrite snapshot_lookup. unfold kept.
  destruct (store !! k) as [v|] eqn:Hk.
  - destruct v; cbn.
    + symmetry. apply map_lookup_filter_None. right. intros v' Hv'. cbn.
      assert (v' = PyNone) by congruence. tauto.
    + symmetry. by apply map_lookup_filter_Some.
    + symmetry. by apply map_lookup_filter_Some.
    + symmetry. by apply map_lookup_filter_Some.
  - symmetry. apply map_lookup_filter_None. by left.
Qed.

Lemma mset_list_to_map (store : gmap string pyobj) (pairs : list (string * pyobj)) :
  NoDup pairs.*1 → Utils.mset store pairs = list_to_map pairs ∪ store.
Proof.
  unfold Utils.mset. revert store.
  induction pairs as [|[k v] pairs IH]; intros store Hnd.
  - cbn. by rewrite (left_id_L ∅ (∪)).
  - rewrite fmap_cons in Hnd. apply NoDup_cons in Hnd as [Hk Hnd].
    cbn [foldl list_to_map foldr fst snd uncurry]. rewrite IH by done.
    rewrite <- insert_union_l. symmetry. apply insert_union_r.
    by apply not_elem_of_list_to_map_1.
Qed.

Lemma mset_map_to_list (internal : gmap string pyobj) :
  Utils.mset ∅ (map_to_list internal) = internal.
Proof.
  rewrite mset_list_to_map by apply NoDup_fst_map_to_list.
  by rewrite (right_id_L ∅ (∪)), list_to_map_to_list.
Qed.

Lemma write_file_ok (path : string) (content : Utils.file) (fs : Utils.filesystem) :
  path ∉ Utils.write_fails fs →
  Utils.write_file path content fs
  = Ok (Utils.Filesystem (<[path := content]> (Utils.files fs)) (Utils.write_fails fs)).
Proof. intros Hw. unfold Utils.write_file. by rewrite decide_False. Qed.

Lemma write_file_raises (path : string) (content : Utils.file) (fs : Utils.filesystem) :
  path ∈ Utils.write_fails fs → Utils.write_file path content fs = Raise OSError.
Proof. intros Hw. unfold Utils.write_file. by rewrite decide_True. Qed.


Lemma write_file_error (path : string) (content : Utils.file) (fs : Utils.filesystem)
    (e : exn) :
  Utils.write_file path content fs = Raise e →
  e = OSError ∧ path ∈ Utils.write_fails fs.
Proof.
  unfold Utils.write_file. destruct (decide (path ∈ Utils.write_fails fs)); [|done].
  by intros [= <-].
Qed.

Lemma load_docstore_pickle (path : string) (fs : Utils.filesystem)
    (internal : gmap string pyobj) :
  Utils.files fs !! path = Some (Utils.PickleFile internal) →
  Utils.load_docstore path fs = Ok internal.
Proof.
  intros Hfile. unfold Utils.load_docstore. rewrite Hfile.
  destruct (decide (internal = ∅)) as [->|_]; [done|].
  by rewrite mset_map_to_list.
Qed.








(** ** Indexed-PDF registry *)

Lemma sorted_perm (X : gset string) : Utils.sorted X ≡ₚ elements X.
Proof. apply merge_sort_Permutation. Qed.

Lemma elem_of_sorted (X : gset string) (x : string) : x ∈ Utils.sorted X ↔ x ∈ X.
Proof. by rewrite sorted_perm, elem_of_elements. Qed.

Lemma sorted_NoDup (X : gset string) : NoDup (Utils.sorted X).
Proof. rewrite sorted_perm. apply NoDup_elements. Qed.

Lemma sorted_Sorted (X : gset string) : Sorted String.le (Utils.sorted X).
Proof. apply (Sorted_merge_sort String.le). Qed.

Lemma list_to_set_sorted (X : gset string) : list_to_set (Utils.sorted X) = X.
Proof.
  apply set_eq. intros x. by rewrite elem_of_list_to_set, elem_of_sorted.
Qed.

Lemma occurrences_NoDup (x : string) (l : list string) :
  NoDup l → x ∈ l → length (filter (λ y, y = x) l) = 1.
Proof.
  induction 1 as [|y l Hy Hnd IH]; [by intros ?%elem_of_nil|].
  intros [->|Hin]%elem_of_cons.
  - rewrite filter_cons_True by done. cbn. f_equal.
    rewrite (elem_of_nil_inv (filter (λ y0, y0 = y) l)); [done|].
    intros z [-> Hz]%list_elem_of_filter. done.
  - rewrite filter_cons_False by (intros ->; done). auto.
Qed.

(** What [save_indexed_pdf] does on a registry that can be read and
    written. *)
Lemma save_indexed_pdf_ok (filename json_path : string) (fs : Utils.filesystem)
    (existing : gset string) :
  Utils.load_indexed_pdfs json_path fs = Ok existing →
  json_path ∉ Utils.write_fails fs →
  let fs' :=
    Utils.Filesystem
      (<[json_path := Utils.JsonFile (Utils.sorted ({[filename]} ∪ existing))]>
         (Utils.files fs))
      (Utils.write_fails fs) in
  Utils.save_indexed_pdf filename json_path fs = Ok fs'
  ∧ Utils.load_indexed_pdfs json_path fs' = Ok ({[filename]} ∪ existing).
Proof.
  intros Hload Hw. cbn zeta. split.
  - unfold Utils.save_indexed_pdf. rewrite Hload. cbn. by apply write_file_ok.
  - unfold Utils.load_indexed_pdfs. cbn. rewrite lookup_insert_eq.
    by rewrite list_to_set_sorted.
Qed.


(** C8: after [save_indexed_pdf] has been called twice with one name on a
    registry that can be read and written, the registry file holds a list
    that is sorted, has no name twice, has the given name exactly once, and
    otherwise the names that were there before; the second call changes
    nothing.  On a path that holds a pickle the call raises, as it does on
    a path that cannot be written. *)
Theorem registry_add_twice (filename json_path : string) (fs : Utils.filesystem) :
  (∀ existing : gset string,
     Utils.load_indexed_pdfs json_path fs = Ok existing →
     json_path ∉ Utils.write_fails fs →
     ∃ (fs1 : Utils.filesystem) (names : list string),
       Utils.save_indexed_pdf filename json_path fs = Ok fs1
       ∧ Utils.save_indexed_pdf filename json_path fs1 = Ok fs1
       ∧ Utils.files fs1 !! json_path = Some (Utils.JsonFile names)
       ∧ length (filter (λ x, x = filename) names) = 1
       ∧ Sorted String.le names
       ∧ NoDup names
       ∧ (∀ x, x ∈ names ↔ x = filename ∨ x ∈ existing)
       ∧ Utils.load_indexed_pdfs json_path fs1 = Ok ({[filename]} ∪ existing))
  ∧ (∀ internal,
       Utils.files fs !! json_path = Some (Utils.PickleFile internal) →
       Utils.save_indexed_pdf filename json_path fs = Raise ValueError)
  ∧ (∀ existing : gset string,
       Utils.load_indexed_pdfs json_path fs = Ok existing →
       json_path ∈ Utils.write_fails fs →
       Utils.save_indexed_pdf filename json_path fs = Raise OSError).
Proof.
  split; [|split].
  - intros existing Hload Hw.
    destruct (save_indexed_pdf_ok filename json_path fs existing Hload Hw)
      as [Hsave Hload1].
    set (fs1 := Utils.Filesystem _ _) in *.
    assert (Hmem : ∀ x,
      x ∈ Utils.sorted ({[filename]} ∪ existing) ↔ x = filename ∨ x ∈ existing).
    { intros x. rewrite elem_of_sorted. set_solver. }
    exists fs1, (Utils.sorted ({[filename]} ∪ existing)).
    split; [done|]. split; [|split; [|split; [|split; [|split; [|split]]]]].
    + destruct (save_indexed_pdf_ok filename json_path fs1 _ Hload1 Hw) as [-> _].
      f_equal. unfold fs1. cbn. rewrite insert_insert_eq.
      by rewrite (assoc_L (∪)), (idemp_L (∪)).
    + unfold fs1. cbn. by rewrite lookup_insert_eq.
    + apply occurrences_NoDup; [apply sorted_NoDup|]. apply Hmem. by left.
    + apply sorted_Sorted.
    + apply sorted_NoDup.
    + apply Hmem.
    + done.
  - intros internal Hfile. unfold Utils.save_indexed_pdf, Utils.load_indexed_pdfs.
    by rewrite Hfile.
  - intros existing Hload Hw. unfold Utils.save_indexed_pdf. rewrite Hload. cbn.
    by apply write_file_raises.
Qed.

Lemma registry_add_twice_witness :
  let fs := Utils.Filesystem
              {[ "indexed_pdfs.json" := Utils.JsonFile ["b.pdf"; "B.pdf"] ]} ∅ in
  ∃ fs1,
    Utils.save_indexed_pdf "a.pdf" "indexed_pdfs.json" fs = Ok fs1
    ∧ Utils.save_indexed_pdf "a.pdf" "indexed_pdfs.json" fs1 = Ok fs1
    ∧ Utils.files fs1 !! "indexed_pdfs.json"
      = Some (Utils.JsonFile ["B.pdf"; "a.pdf"; "b.pdf"]).
Proof.
  cbn zeta.
  destruct (proj1 (registry_add_twice "a.pdf" "indexed_pdfs.json"
                     (Utils.Filesystem
                        {[ "indexed_pdfs.json" := Utils.JsonFile ["b.pdf"; "B.pdf"] ]} ∅))
              (list_to_set ["b.pdf"; "B.pdf"])
              ltac:(unfold Utils.load_indexed_pdfs; cbn; by rewrite lookup_singleton_eq)
              (not_elem_of_empty _))
    as (fs1 & names & Hsave & Hagain & Hfile & _).
  exists fs1. split; [exact Hsave|]. split; [exact Hagain|].
  vm_compute in Hsave. injection Hsave as <-. vm_compute. reflexivity.
Defined.

(** ** summarise_images *)

Section Images.

Variable llm_invoke : nat → list message → option string.






End Images.




(** ** summarise_texts *)

Lemma py_slice_nat {A} (l : list A) (a b : nat) :
  py_slice l (Z.of_nat a) (Z.of_nat b) = drop a (take b l).
Proof.
  unfold py_slice, clamp_index.
  destruct (Z.ltb_spec (Z.of_nat a) 0); [lia|].
  destruct (Z.ltb_spec (Z.of_nat b) 0); [lia|].
  rewrite <- !Nat2Z.inj_min, !Nat2Z.id.
  assert (Htake : take (b `min` length l) l = take b l).
  { destruct (decide (b ≤ length l)); [by rewrite Nat.min_l by lia|].
    rewrite Nat.min_r by lia. by rewrite !take_ge by lia. }
  rewrite Htake.
  destruct (decide (a ≤ length l)); [by rewrite Nat.min_l by lia|].
  rewrite Nat.min_r by lia.
  rewrite !drop_ge; [done|rewrite length_take; lia|rewrite length_take; lia].
Qed.

Lemma chunk_lookup (texts : list string) (size k o : nat) :
  o < size → chunk texts size k !! o = texts !! (k * size + o).
Proof.
  intros Ho. unfold chunk. rewrite lookup_drop. apply lookup_take_lt. lia.
Qed.

Lemma chunk_length (texts : list string) (size k : nat) :
  length (chunk texts size k) = (k * size + size) `min` length texts - k * size.
Proof. unfold chunk. by rewrite length_drop, length_take. Qed.

Section Texts.

Variable llm_invoke : nat → list message → option string.

Lemma chain_batch_length (k : nat) (inputs results : list string) :
  Summarizer.chain_batch llm_invoke k inputs = Some results →
  length results = length inputs.
Proof.
  revert k results. induction inputs as [|t inputs IH]; intros k results; cbn.
  - by intros [= <-].
  - destruct (Summarizer.chain_invoke llm_invoke k t); [|done].
    destruct (Summarizer.chain_batch llm_invoke (S k) inputs) as [rs|] eqn:Hrs; [|done].
    intros [= <-]. cbn. f_equal. by apply (IH (S k)).
Qed.

Lemma chain_batch_lookup (k : nat) (inputs results : list string) (j : nat) (t : string) :
  Summarizer.chain_batch llm_invoke k inputs = Some results →
  inputs !! j = Some t →
  ∃ s, results !! j = Some s ∧ Summarizer.chain_invoke llm_invoke (k + j) t = Some s.
Proof.
  revert k results j. induction inputs as [|t0 inputs IH]; intros k results j; cbn.
  - by intros _ ?.
  - destruct (Summarizer.chain_invoke llm_invoke k t0) as [r|] eqn:Hr; [|done].
    destruct (Summarizer.chain_batch llm_invoke (S k) inputs) as [rs|] eqn:Hrs; [|done].
    intros [= <-]. destruct j as [|j]; cbn.
    + intros [= ->]. exists r. by rewrite Nat.add_0_r.
    + intros Ht. destruct (IH (S k) rs j Hrs Ht) as (s & Hs & Hinv).
      exists s. split; [done|]. by rewrite <- Nat.add_succ_comm.
Qed.

Lemma batch_output_length (start : nat) (batch : list string) :
  length (batch_output llm_invoke start batch) = length batch.
Proof.
  unfold batch_output.
  destruct (Summarizer.chain_batch llm_invoke start batch) as [rs|] eqn:Hrs.
  - by apply chain_batch_length in Hrs.
  - apply length_fmap.
Qed.

Lemma batch_output_lookup (start : nat) (batch : list string) (j : nat) (t : string) :
  batch !! j = Some t →
  ∃ s, batch_output llm_invoke start batch !! j = Some s
       ∧ (Summarizer.chain_invoke llm_invoke (start + j) t = Some s
          ∨ s = str_prefix 500 t).
Proof.
  intros Ht. unfold batch_output.
  destruct (Summarizer.chain_batch llm_invoke start batch) as [rs|] eqn:Hrs.
  - destruct (chain_batch_lookup _ _ _ _ _ Hrs Ht) as (s & Hs & Hinv). eauto.
  - exists (str_prefix 500 t). rewrite list_lookup_fmap, Ht. auto.
Qed.

Variable texts : list string.
Variable concurrency : Z.
Hypothesis concurrency_pos : (0 < concurrency)%Z.

Local Abbreviation size := (Z.to_nat concurrency).
Local Abbreviation out_after := (loop_out llm_invoke texts concurrency).
Local Abbreviation n_turns := (turns texts concurrency).

Lemma summarise_step_nat (summaries : list string) (k : nat) :
  Summarizer.summarise_step llm_invoke texts concurrency summaries
    (0 + Z.of_nat k * concurrency)
  = summaries ++ batch_output llm_invoke (k * size) (chunk texts size k).
Proof.
  unfold Summarizer.summarise_step, batch_output, chunk.
  assert (Hstart : (0 + Z.of_nat k * concurrency)%Z = Z.of_nat (k * size))
    by lia.
  assert (Hstop : (Z.of_nat (k * size) + concurrency)%Z = Z.of_nat (k * size + size))
    by lia.
  rewrite Hstart, Hstop, py_slice_nat, Nat2Z.id.
  by destruct (Summarizer.chain_batch llm_invoke (k * size) _).
Qed.

Lemma loop_out_S (k : nat) :
  out_after (S k) = out_after k ++ batch_output llm_invoke (k * size) (chunk texts size k).
Proof.
  unfold loop_out. rewrite seq_S, fmap_app, foldl_app. cbn [fmap list_fmap foldl].
  apply summarise_step_nat.
Qed.

Lemma loop_out_length (k : nat) : length (out_after k) = (k * size) `min` length texts.
Proof.
  induction k as [|k IH]; [done|].
  rewrite loop_out_S, length_app, IH, batch_output_length, chunk_length. lia.
Qed.

Lemma loop_out_lookup (k j o : nat) :
  j < k → o < length (chunk texts size j) →
  out_after k !! (j * size + o)
  = batch_output llm_invoke (j * size) (chunk texts size j) !! o.
Proof.
  intros Hj Ho. rewrite chunk_length in Ho.
  induction k as [|k IH]; [lia|].
  rewrite loop_out_S. destruct (decide (j = k)) as [->|Hne].
  - rewrite lookup_app_r by (rewrite loop_out_length; lia).
    rewrite loop_out_length. f_equal. lia.
  - assert (S j * size ≤ k * size) by (apply Nat.mul_le_mono_r; lia).
    rewrite lookup_app_l by (rewrite loop_out_length; lia).
    apply IH. lia.
Qed.

Lemma py_range_batches :
  texts ≠ [] →
  py_range 0 (Z.of_nat (length texts)) concurrency
  = Ok ((λ j : nat, (0 + Z.of_nat j * concurrency)%Z) <$> seq 0 n_turns).
Proof.
  intros Hne. unfold py_range.
  destruct (Z.eqb_spec concurrency 0); [lia|].
  destruct (Z.ltb_spec 0 concurrency); [|lia].
  destruct (Z.ltb_spec 0 (Z.of_nat (length texts))); [done|].
  destruct texts; [done|]. cbn in *. lia.
Qed.

Lemma turns_cover : length texts ≤ n_turns * size.
Proof.
  unfold turns.
  pose proof (Z.mul_succ_div_gt (Z.of_nat (length texts) - 0 - 1) concurrency
                concurrency_pos) as Hgt.
  destruct (decide (length texts = 0)) as [->|Hne]; [lia|].
  assert (0 ≤ (Z.of_nat (length texts) - 0 - 1) / concurrency)%Z
    by (apply Z.div_pos; lia).
  apply Nat2Z.inj_le. rewrite Nat2Z.inj_mul, !Z2Nat.id by lia. lia.
Qed.

Lemma summarise_texts_loop :
  texts ≠ [] →
  Summarizer.summarise_texts llm_invoke texts concurrency = Ok (out_after n_turns).
Proof.
  intros Hne. unfold Summarizer.summarise_texts.
  rewrite py_range_batches by done. by destruct texts.
Qed.

(** Every unit has its entry in the result of the loop, and that entry is
    what its batch gave for it. *)
Lemma loop_out_unit (i : nat) (t : string) :
  texts !! i = Some t →
  ∃ k o, i = k * size + o ∧ k < n_turns ∧ o < length (chunk texts size k)
         ∧ chunk texts size k !! o = Some t.
Proof.
  intros Ht. pose proof (lookup_lt_Some _ _ _ Ht) as Hi.
  assert (Hsize : 0 < size) by lia.
  exists (i `div` size), (i `mod` size).
  pose proof (Nat.div_mod i size ltac:(lia)) as Hdm.
  pose proof (Nat.mod_upper_bound i size ltac:(lia)) as Hmod.
  assert (Hi' : i = i `div` size * size + i `mod` size) by lia.
  split; [done|]. split; [|split].
  - destruct (decide (i `div` size < n_turns)) as [|Hge]; [done|].
    assert (n_turns * size ≤ i `div` size * size) by (apply Nat.mul_le_mono_r; lia).
    pose proof turns_cover. lia.
  - rewrite chunk_length. lia.
  - rewrite chunk_lookup by done. by rewrite <- Hi'.
Qed.

Lemma loop_out_total : length (out_after n_turns) = length texts.
Proof. rewrite loop_out_length. pose proof turns_cover. lia. Qed.

(** The result of [summarise_texts], batch by batch. *)
Lemma summarise_texts_batches :
  texts ≠ [] →
  ∃ out,
    Summarizer.summarise_texts llm_invoke texts concurrency = Ok out
    ∧ length out = length texts
    ∧ ∀ k o, o < length (chunk texts (Z.to_nat concurrency) k) →
        out !! (k * Z.to_nat concurrency + o)
        = batch_output llm_invoke (k * Z.to_nat concurrency)
            (chunk texts (Z.to_nat concurrency) k) !! o.
Proof.
  intros Hne. exists (out_after n_turns).
  split; [by apply summarise_texts_loop|]. split; [apply loop_out_total|].
  intros k o Ho. apply loop_out_lookup; [|done].
  destruct (decide (k < n_turns)) as [|Hge]; [done|].
  assert (n_turns * size ≤ k * size) by (apply Nat.mul_le_mono_r; lia).
  pose proof turns_cover. rewrite chunk_length in Ho. lia.
Qed.

Lemma unit_in_chunk (i : nat) (t : string) :
  texts !! i = Some t →
  ∃ k o, i = k * Z.to_nat concurrency + o
         ∧ o < length (chunk texts (Z.to_nat concurrency) k)
         ∧ chunk texts (Z.to_nat concurrency) k !! o = Some t.
Proof.
  intros (k & o & Hi & _ & Ho & Ht)%loop_out_unit. exists k, o. done.
Qed.

End Texts.


Lemma py_slice_chunk (texts : list string) (concurrency : Z) (k : nat) :
  (0 < concurrency)%Z →
  py_slice texts (Z.of_nat k * concurrency) (Z.of_nat k * concurrency + concurrency)
  = chunk texts (Z.to_nat concurrency) k
  ∧ Z.to_nat (Z.of_nat k * concurrency) = k * Z.to_nat concurrency.
Proof.
  intros Hpos.
  assert (Hstart : (Z.of_nat k * concurrency)%Z = Z.of_nat (k * Z.to_nat concurrency))
    by lia.
  assert (Hstop : (Z.of_nat (k * Z.to_nat concurrency) + concurrency)%Z
                  = Z.of_nat (k * Z.to_nat concurrency + Z.to_nat concurrency)) by lia.
  rewrite Hstart, Hstop, py_slice_nat, Nat2Z.id. done.
Qed.



Example summarise_texts_example :
  Summarizer.summarise_texts unit_1_fails ["alpha"; "beta"; "gamma"] 2
  = Ok ["alpha"; "beta"; "summary"].
Proof. vm_compute. reflexivity. Qed.


Example summarise_texts_zero_concurrency :
  Summarizer.summarise_texts (λ _ _, Some "summary") ["Revenue grew 10%"] 0
  = Raise ValueError.
Proof. reflexivity. Qed.



(** ** add_texts_to_store *)

Section Indexing.

Variable uuid4 : nat → string.
Variable embeddings_ok : list document → bool.

Lemma fresh_ids_length {A} (summaries : list A) (w : VectorStore.world) :
  length (VectorStore.fresh_ids uuid4 summaries w) = length summaries.
Proof. unfold VectorStore.fresh_ids. by rewrite length_fmap, length_seq. Qed.

Lemma fresh_ids_lookup {A} (summaries : list A) (w : VectorStore.world) (i : nat) :
  i < length summaries →
  VectorStore.fresh_ids uuid4 summaries w !! i
  = Some (uuid4 (VectorStore.uuids_drawn w + i)).
Proof.
  intros Hi. unfold VectorStore.fresh_ids.
  by rewrite list_lookup_fmap, lookup_seq_lt.
Qed.

Lemma elem_of_fresh_ids {A} (summaries : list A) (w : VectorStore.world) (id : string) :
  id ∈ VectorStore.fresh_ids uuid4 summaries w
  ↔ ∃ i, i < length summaries ∧ id = uuid4 (VectorStore.uuids_drawn w + i).
Proof.
  unfold VectorStore.fresh_ids. rewrite list_elem_of_fmap. split.
  - intros (i & -> & Hi%elem_of_seq). exists i. split; [lia|done].
  - intros (i & Hi & ->). exists i. split; [done|]. apply elem_of_seq. lia.
Qed.

Lemma summary_docs_lookup (w : VectorStore.world) (summaries : list string)
    (i : nat) (s : string) :
  summaries !! i = Some s →
  VectorStore.summary_docs (VectorStore.fresh_ids uuid4 summaries w) summaries !! i
  = Some (Document s {[ VectorStore._ID_KEY := uuid4 (VectorStore.uuids_drawn w + i) ]}).
Proof.
  intros Hs. unfold VectorStore.summary_docs.
  rewrite list_lookup_imap, Hs. cbn.
  by rewrite fresh_ids_lookup by (by eapply lookup_lt_Some).
Qed.

Lemma fresh_ids_NoDup {A} (summaries : list A) (w : VectorStore.world) :
  Inj (=) (=) uuid4 → NoDup (VectorStore.fresh_ids uuid4 summaries w).
Proof.
  intros Hinj. unfold VectorStore.fresh_ids.
  apply NoDup_fmap_2; [|apply NoDup_seq].
  intros x y Hxy. apply Hinj in Hxy. lia.
Qed.

Lemma mset_lookup_pair (store : gmap string pyobj) (pairs : list (string * pyobj))
    (i : nat) (k : string) (v : pyobj) :
  NoDup pairs.*1 → pairs !! i = Some (k, v) → Utils.mset store pairs !! k = Some v.
Proof.
  intros Hnd Hi. rewrite mset_list_to_map by done.
  apply lookup_union_Some_l, elem_of_list_to_map_1; [done|].
  by eapply list_elem_of_lookup_2.
Qed.

End Indexing.

(** C3: [add_texts_to_store] does nothing on an empty list of summaries.
    Otherwise it draws one identifier per summary from [uuid.uuid4], whatever
    the contents are; hands the embedding store one record per summary, with
    the summary as content and the identifier under [doc_id] as metadata;
    then writes the pairs of identifier and original into the docstore; then
    writes the whole docstore to the file, in that order.  When the embedding
    store raises, the docstore and the file are as before; when the file
    cannot be written, the records and the entries of the docstore are
    there and the file is as before.  With identifiers that never repeat,
    those of one call are distinct and none of them is drawn again by a later
    call, so indexing the same content again makes new entries. *)
Theorem add_texts_to_store_steps
    (uuid4 : nat → string) (embeddings_ok : list document → bool)
    (w : VectorStore.world) (summaries originals : list string) (path : string) :
  let doc_ids := VectorStore.fresh_ids uuid4 summaries w in
  let docs := VectorStore.summary_docs doc_ids summaries in
  let pairs := zip doc_ids (PyStr <$> originals) in
  let store' := Utils.mset (VectorStore.docstore w) pairs in
  let fs' :=
    Utils.Filesystem
      (<[path := Utils.PickleFile (Utils.snapshot store')]>
         (Utils.files (VectorStore.disk w)))
      (Utils.write_fails (VectorStore.disk w)) in
  let w' :=
    VectorStore.World
      (VectorStore.chroma w ++ docs)
      store'
      fs'
      (VectorStore.uuids_drawn w + length summaries)
      (VectorStore.trace w
         ++ [VectorStore.AddDocuments docs; VectorStore.Mset pairs;
             VectorStore.WriteDocstore path (Utils.snapshot store')]) in
  let w_not_saved :=
    VectorStore.World
      (VectorStore.chroma w ++ docs)
      store'
      (VectorStore.disk w)
      (VectorStore.uuids_drawn w + length summaries)
      (VectorStore.trace w
         ++ [VectorStore.AddDocuments docs; VectorStore.Mset pairs]) in
  VectorStore.add_texts_to_store uuid4 embeddings_ok w [] originals path = (w, None)
  ∧ (summaries ≠ [] → embeddings_ok docs = true →
     path ∉ Utils.write_fails (VectorStore.disk w) →
     VectorStore.add_texts_to_store uuid4 embeddings_ok w summaries originals path
     = (w', None))
  ∧ (summaries ≠ [] → embeddings_ok docs = true →
     path ∈ Utils.write_fails (VectorStore.disk w) →
     VectorStore.add_texts_to_store uuid4 embeddings_ok w summaries originals path
     = (w_not_saved, Some OSError))
  ∧ (summaries ≠ [] → embeddings_ok docs = false →
     VectorStore.add_texts_to_store uuid4 embeddings_ok w summaries originals path
     = (VectorStore.draw_uuids (length summaries) w, Some EmbeddingError))
  ∧ length docs = length summaries
  ∧ (∀ i s, summaries !! i = Some s →
       docs !! i
       = Some (Document s {[ VectorStore._ID_KEY
                             := uuid4 (VectorStore.uuids_drawn w + i) ]}))
  ∧ (∀ summaries2 : list string,
       length summaries2 = length summaries →
       VectorStore.fresh_ids uuid4 summaries2 w = doc_ids)
  ∧ Utils.files (VectorStore.disk w') !! path
    = Some (Utils.PickleFile (filter (λ kv, kv.2 ≠ PyNone) store'))
  ∧ (Inj (=) (=) uuid4 →
     NoDup doc_ids
     ∧ (∀ (summaries2 : list string) id,
          id ∈ doc_ids → id ∉ VectorStore.fresh_ids uuid4 summaries2 w')
     ∧ (length originals = length summaries →
        ∀ i o, originals !! i = Some o →
          store' !! uuid4 (VectorStore.uuids_drawn w + i) = Some (PyStr o))).
Proof.
  cbn zeta.
  split; [done|]. split; [|split; [|split; [|split; [|split; [|split; [|split]]]]]].
  - intros Hne Hok Hw. unfold VectorStore.add_texts_to_store.
    destruct summaries as [|s summaries']; [done|].
    unfold VectorStore.and_then, VectorStore.add_documents.
    cbn [VectorStore.draw_uuids VectorStore.chroma VectorStore.docstore
         VectorStore.disk VectorStore.uuids_drawn VectorStore.trace].
    rewrite Hok. cbn [fst snd].
    unfold VectorStore.docstore_save, VectorStore.docstore_mset, Utils.save_docstore.
    cbn [VectorStore.chroma VectorStore.docstore VectorStore.disk
         VectorStore.uuids_drawn VectorStore.trace].
    rewrite write_file_ok by done.
    by rewrite <- !app_assoc.
  - intros Hne Hok Hw. unfold VectorStore.add_texts_to_store.
    destruct summaries as [|s summaries']; [done|].
    unfold VectorStore.and_then, VectorStore.add_documents.
    cbn [VectorStore.draw_uuids VectorStore.chroma VectorStore.docstore
         VectorStore.disk VectorStore.uuids_drawn VectorStore.trace].
    rewrite Hok. cbn [fst snd].
    unfold VectorStore.docstore_save, VectorStore.docstore_mset, Utils.save_docstore.
    cbn [VectorStore.chroma VectorStore.docstore VectorStore.disk
         VectorStore.uuids_drawn VectorStore.trace].
    rewrite write_file_raises by done.
    by rewrite <- !app_assoc.
  - intros Hne Hfail. unfold VectorStore.add_texts_to_store.
    destruct summaries as [|s summaries']; [done|].
    unfold VectorStore.and_then, VectorStore.add_documents.
    by rewrite Hfail.
  - apply length_imap.
  - intros i s Hs. by apply summary_docs_lookup.
  - intros summaries2 Hlen. unfold VectorStore.fresh_ids. by rewrite Hlen.
  - cbn. by rewrite lookup_insert_eq, snapshot_filter.
  - intros Hinj. split; [by apply fresh_ids_NoDup|]. split.
    + intros summaries2 id (i & Hi & ->)%elem_of_fresh_ids
        (j & Hj & Heq)%elem_of_fresh_ids.
      cbn in Heq. apply Hinj in Heq. lia.
    + intros Hlen i o Ho.
      assert (Hi : i < length summaries)
        by (rewrite <- Hlen; by eapply lookup_lt_Some).
      apply (mset_lookup_pair _ _ i).
      * rewrite fst_zip by (rewrite fresh_ids_length, length_fmap; lia).
        by apply fresh_ids_NoDup.
      * apply lookup_zip_with_Some. eexists _, _. split; [done|]. split.
        -- by apply fresh_ids_lookup.
        -- by rewrite list_lookup_fmap, Ho.
Qed.

Lemma add_texts_to_store_steps_witness :
  (∃ w',
     VectorStore.add_texts_to_store (pretty : nat → string) (λ _, true) empty_world
       ["summary"] ["original"] "docstore.pkl" = (w', None)
     ∧ VectorStore.docstore w' !! pretty 0 = Some (PyStr "original"))
  ∧ VectorStore.add_texts_to_store (pretty : nat → string) (λ _, false) empty_world
      ["summary"] ["original"] "docstore.pkl"
    = (VectorStore.draw_uuids 1 empty_world, Some EmbeddingError)
  ∧ (VectorStore.add_texts_to_store (pretty : nat → string) (λ _, true) read_only_world
       ["summary"] ["original"] "docstore.pkl").2
    = Some OSError.
Proof.
  split; [|split].
  - pose proof (add_texts_to_store_steps (pretty : nat → string) (λ _, true)
                  empty_world ["summary"] ["original"] "docstore.pkl")
      as (_ & Hok & _ & _ & _ & _ & _ & _ & Hids).
    eexists. split.
    + apply Hok; [discriminate|reflexivity|apply not_elem_of_empty].
    + destruct (Hids _) as (_ & _ & Hstore).
      apply (Hstore eq_refl 0 "original"). reflexivity.
  - apply (add_texts_to_store_steps (pretty : nat → string) (λ _, false)
             empty_world ["summary"] ["original"] "docstore.pkl");
      [discriminate|reflexivity].
  - pose proof (add_texts_to_store_steps (pretty : nat → string) (λ _, true)
                  read_only_world ["summary"] ["original"] "docstore.pkl")
      as (_ & _ & Hfail & _).
    rewrite Hfail; [reflexivity|discriminate|reflexivity|].
    apply (proj2 (elem_of_singleton (C := gset string) "docstore.pkl" "docstore.pkl")).
    reflexivity.
Defined.

(** ** Retrieval *)

Lemma mget_not_none (store : gmap string pyobj) (ids : list string) :
  List.filter (λ d, negb (Utils.is_none d)) (Utils.mget store ids)
  = omap (kept store) ids.
Proof.
  unfold Utils.mget. induction ids as [|id ids IH]; [done|].
  cbn. rewrite IH. unfold kept.
  destruct (store !! id) as [v|]; cbn; [|done]. by destruct (Utils.is_none v).
Qed.

(** C5, as the code has it: the retriever looks up the identifiers of the
    matches in the docstore and returns the originals that it finds, in the
    order of the matches; a match whose identifier has no entry adds nothing
    to the result and raises nothing, and [_answer_and_sources] answers from
    the documents that are left. *)
Theorem retrieval_skips_missing_entries
    (similarity_search : list document → string → nat → option (list document))
    (llm_invoke : list message → option string)
    (r : VectorStore.retriever) (w : VectorStore.world)
    (question : string) (sub_docs : list document) (response : string) :
  let ids := VectorStore.matched_ids (VectorStore.id_key r) sub_docs in
  let found := omap (kept (VectorStore.docstore w)) ids in
  similarity_search (VectorStore.chroma w) question (VectorStore.search_k r)
    = Some sub_docs →
  llm_invoke (RagChain.build_prompt (RagChain.parse_docs found) question)
    = Some response →
  VectorStore.retriever_invoke similarity_search r w question = Ok found
  ∧ (∀ v, v ∈ found ↔
          ∃ id, id ∈ ids ∧ VectorStore.docstore w !! id = Some v ∧ v ≠ PyNone)
  ∧ RagChain.build_rag_chain_with_sources
      (VectorStore.retriever_invoke similarity_search r w) llm_invoke question
    = Ok (RagChain.AnswerWithSources response
            (RagChain.texts (RagChain.parse_docs found))
            (length (RagChain.images (RagChain.parse_docs found)))).
Proof.
  cbn zeta. intros Hsearch Hllm.
  assert (Hinvoke :
    VectorStore.retriever_invoke similarity_search r w question
    = Ok (omap (kept (VectorStore.docstore w))
            (VectorStore.matched_ids (VectorStore.id_key r) sub_docs))).
  { unfold VectorStore.retriever_invoke. by rewrite Hsearch, mget_not_none. }
  split; [done|]. split.
  - intros v. rewrite list_elem_of_omap. unfold kept. split.
    + intros (id & Hid & Hv). exists id. split; [done|].
      destruct (VectorStore.docstore w !! id) as [v'|]; [|done].
      destruct v'; cbn in Hv; by simplify_eq.
    + intros (id & Hid & Hv & Hne). exists id. split; [done|].
      rewrite Hv. by destruct v.
  - unfold RagChain.build_rag_chain_with_sources, RagChain._answer_and_sources.
    rewrite Hinvoke. cbn.
    by rewrite Hllm.
Qed.

Lemma retrieval_skips_missing_entries_witness :
  VectorStore.retriever_invoke first_records (VectorStore.get_retriever None)
    desynced_world "How much did revenue grow?" = Ok [].
Proof.
  destruct (retrieval_skips_missing_entries first_records (λ _, Some "I do not know")
              (VectorStore.get_retriever None) desynced_world
              "How much did revenue grow?"
              [Document "Revenue summary" {[ VectorStore._ID_KEY := "id-1" ]}]
              "I do not know") as [Hinvoke _]; [reflexivity..|].
  exact Hinvoke.
Defined.

(** C5 as stated fails: the one match has an identifier that the docstore
    does not have, and the retrieval returns an empty list and the chain an
    answer, not an error. *)
Lemma retrieval_missing_entry_not_raised :
  let r := VectorStore.get_retriever None in
  let question := "How much did revenue grow?" in
  first_records (VectorStore.chroma desynced_world) question (VectorStore.search_k r)
    = Some [Document "Revenue summary" {[ VectorStore._ID_KEY := "id-1" ]}]
  ∧ VectorStore.docstore desynced_world !! "id-1" = None
  ∧ VectorStore.retriever_invoke first_records r desynced_world question = Ok []
  ∧ RagChain.build_rag_chain_with_sources
      (VectorStore.retriever_invoke first_records r desynced_world)
      (λ _, Some "I do not know") question
    = Ok (RagChain.AnswerWithSources "I do not know" [] 0).
Proof. cbn zeta. split; [|split; [|split]]; reflexivity. Qed.

(** * Further properties of the code *)

(** ** base64 and the classification of images *)

Lemma list_ind3 {A} (P : list A → Prop) :
  P [] → (∀ a, P [a]) → (∀ a b, P [a; b]) →
  (∀ a b c l, P l → P (a :: b :: c :: l)) →
  ∀ l, P l.
Proof.
  intros H0 H1 H2 H3 l.
  assert (H : P l ∧ (∀ a, P (a :: l)) ∧ (∀ a b, P (a :: b :: l))).
  { induction l as [|x l (IH0 & IH1 & IH2)]; [by auto|].
    split; [apply IH1|]. split; [intros a; apply IH2|].
    intros a b. by apply H3. }
  apply H.
Qed.

Lemma symbol_b64 (i : N) : (i < 64)%N → b64_symbol (Base64.symbol i) = true.
Proof.
  intros Hi. unfold Base64.symbol.
  assert (Hn : N.to_nat i < 64) by lia.
  revert Hn. generalize (N.to_nat i). intros n Hn.
  do 64 (destruct n as [|n]; [reflexivity|]). lia.
Qed.

Lemma all_chars_app (p : ascii → bool) (s1 s2 : string) :
  all_chars p (s1 +:+ s2) = all_chars p s1 && all_chars p s2.
Proof.
  induction s1 as [|c s1 IH]; [done|].
  rewrite str_app_cons. cbn. by rewrite IH, andb_assoc.
Qed.

(** The shape of an encoding: symbols of the alphabet, then padding. *)
Lemma b64encode_shape (data : list Byte.byte) :
  ∃ body pad,
    Base64.b64encode data = body +:+ repeat_char "=" pad
    ∧ all_chars b64_symbol body = true
    ∧ pad = (3 - length data `mod` 3) `mod` 3
    ∧ String.length body + pad = 4 * ((length data + 2) `div` 3)
    ∧ (data ≠ [] → body ≠ "").
Proof.
  induction data as [|b0|b0 b1|b0 b1 b2 rest IH] using list_ind3.
  - exists "", 0. done.
  - pose proof (Byte.to_N_bounded b0).
    eexists (String _ (String _ "")), 2. split; [reflexivity|].
    split; [|done]. cbn [all_chars].
    rewrite !symbol_b64; [done| |].
    + apply N.mod_lt. lia.
    + apply N.Div0.div_lt_upper_bound. lia.
  - pose proof (Byte.to_N_bounded b0). pose proof (Byte.to_N_bounded b1).
    eexists (String _ (String _ (String _ ""))), 1. split; [reflexivity|].
    split; [|done]. cbn [all_chars].
    rewrite !symbol_b64; [done| | |].
    + apply N.mod_lt. lia.
    + apply N.mod_lt. lia.
    + apply N.Div0.div_lt_upper_bound. lia.
  - destruct IH as (body & pad & Henc & Hbody & Hpad & Hlen & _).
    pose proof (Byte.to_N_bounded b0). pose proof (Byte.to_N_bounded b1).
    pose proof (Byte.to_N_bounded b2).
    eexists (String _ (String _ (String _ (String _ body)))), pad.
    split; [|split; [|split; [|split]]].
    + cbn [Base64.b64encode]. rewrite Henc. reflexivity.
    + cbn [all_chars]. rewrite Hbody.
      rewrite !symbol_b64; [done| | | |].
      * apply N.mod_lt. lia.
      * apply N.mod_lt. lia.
      * apply N.mod_lt. lia.
      * apply N.Div0.div_lt_upper_bound. lia.
    + rewrite Hpad. cbn [length].
      replace (S (S (S (length rest)))) with (length rest + 1 * 3) by lia.
      by rewrite Nat.Div0.mod_add.
    + cbn [String.length length].
      replace (S (S (S (length rest))) + 2) with (length rest + 2 + 1 * 3) by lia.
      rewrite Nat.div_add by lia. lia.
    + done.
Qed.

Lemma b64encode_image_lemma (data : list Byte.byte) :
  str_len (Base64.b64encode data) = 4 * ((length data + 2) `div` 3)
  ∧ (Utils.is_base64_image (PyStr (Base64.b64encode data)) = true
     ↔ 148 ≤ length data).
Proof.
  destruct (b64encode_shape data) as (body & pad & Henc & Hbody & _ & Hlen & Hne).
  rewrite <- (str_len_symbols body Hbody) in Hlen.
  assert (Hl : str_len (Base64.b64encode data) = 4 * ((length data + 2) `div` 3)).
  { by rewrite Henc, str_len_app, str_len_repeat. }
  split; [done|].
  destruct (decide (148 ≤ length data)) as [Hbig|Hsmall].
  - split; [done|]. intros _. rewrite Henc.
    apply is_base64_image_padded_long; [|done|].
    + apply Hne. intros ->. cbn in Hbig. lia.
    + rewrite Hlen.
      pose proof (Nat.Div0.div_le_mono 150 (length data + 2) 3 ltac:(lia)) as Hd.
      change (150 `div` 3) with 50 in Hd. lia.
  - split; [|lia]. rewrite is_base64_image_short; [done|].
    rewrite Hl.
    pose proof (Nat.Div0.div_le_mono (length data + 2) 149 3 ltac:(lia)) as Hd.
    change (149 `div` 3) with 49 in Hd. lia.
Qed.

(** An encoding is classified as an image exactly when it has at least 148
    bytes to encode, which make 200 characters. *)
Lemma b64encode_is_image (data : list Byte.byte) :
  str_len (Base64.b64encode data) = 4 * ((length data + 2) `div` 3)
  ∧ (Utils.is_base64_image (PyStr (Base64.b64encode data)) = true
     ↔ 148 ≤ length data).
Proof. apply b64encode_image_lemma. Qed.

(** *** The encoding can be read back *)

Lemma symbol_value_symbol (i : N) :
  (i < 64)%N → symbol_value (Base64.symbol i) = Some i.
Proof.
  intros Hi. rewrite <- (N2Nat.id i). unfold Base64.symbol. rewrite Nat2N.id.
  assert (Hn : N.to_nat i < 64) by lia.
  revert Hn. generalize (N.to_nat i). intros n Hn.
  do 64 (destruct n as [|n]; [reflexivity|]). lia.
Qed.

Lemma byte_of_to_N (b : Byte.byte) : byte_of_N (Byte.to_N b) = b.
Proof. unfold byte_of_N. by rewrite Byte.of_to_N. Qed.

Lemma sextets_of_three (x y z : N) :
  (x < 256)%N → (y < 256)%N → (z < 256)%N →
  let n := (x * 65536 + y * 256 + z)%N in
  (n / 262144 < 64 ∧ n / 4096 mod 64 < 64 ∧ n / 64 mod 64 < 64 ∧ n mod 64 < 64)%N
  ∧ (n / 262144 * 262144 + n / 4096 mod 64 * 4096 + n / 64 mod 64 * 64 + n mod 64
     = n)%N
  ∧ (n / 65536 = x ∧ n / 256 mod 256 = y ∧ n mod 256 = z)%N.
Proof. intros. cbv zeta. zify. Z.to_euclidean_division_equations. lia. Qed.

Lemma sextets_of_two (x y : N) :
  (x < 256)%N → (y < 256)%N →
  let n := ((x * 256 + y) * 4)%N in
  (n / 4096 < 64 ∧ n / 64 mod 64 < 64 ∧ n mod 64 < 64)%N
  ∧ (let m := (n / 4096 * 4096 + n / 64 mod 64 * 64 + n mod 64)%N in
     m / 1024 = x ∧ m / 4 mod 256 = y)%N.
Proof. intros. cbv zeta. zify. Z.to_euclidean_division_equations. lia. Qed.

Lemma sextets_of_one (x : N) :
  (x < 256)%N →
  let n := (x * 16)%N in
  (n / 64 < 64 ∧ n mod 64 < 64)%N ∧ ((n / 64 * 64 + n mod 64) / 16 = x)%N.
Proof. intros. cbv zeta. zify. Z.to_euclidean_division_equations. lia. Qed.

(** What [b64encode] writes stands for the bytes that it was given. *)
Lemma b64_bytes_b64encode (data : list Byte.byte) :
  b64_bytes (Base64.b64encode data) = Some data.
Proof.
  induction data as [|b0|b0 b1|b0 b1 b2 rest IH] using list_ind3.
  - done.
  - pose proof (Byte.to_N_bounded b0).
    destruct (sextets_of_one (Byte.to_N b0)) as ((Hs0 & Hs1) & Hx); [lia|].
    cbn [Base64.b64encode b64_bytes].
    rewrite !symbol_value_symbol by done. cbn. by rewrite Hx, byte_of_to_N.
  - pose proof (Byte.to_N_bounded b0). pose proof (Byte.to_N_bounded b1).
    destruct (sextets_of_two (Byte.to_N b0) (Byte.to_N b1))
      as ((Hs0 & Hs1 & Hs2) & Hx & Hy); [lia..|].
    cbn [Base64.b64encode b64_bytes].
    rewrite !symbol_value_symbol by done. cbn. by rewrite Hx, Hy, !byte_of_to_N.
  - pose proof (Byte.to_N_bounded b0). pose proof (Byte.to_N_bounded b1).
    pose proof (Byte.to_N_bounded b2).
    destruct (sextets_of_three (Byte.to_N b0) (Byte.to_N b1) (Byte.to_N b2))
      as ((Hs0 & Hs1 & Hs2 & Hs3) & Hn & Hx & Hy & Hz); [lia..|].
    cbn [Base64.b64encode b64_bytes].
    rewrite !symbol_value_symbol by done. cbn zeta.
    rewrite Hn, Hx, Hy, Hz, !byte_of_to_N, IH. done.
Qed.

(** X4: [encode_image_to_base64] gives the base64 encoding of the bytes of
    the file, from which the bytes can be read back; [is_base64_image] takes
    it for an image exactly when the file has at least 148 bytes; and there
    is no result when there is no file. *)
Theorem encode_image_to_base64_is_image
    (image_files : gmap string (list Byte.byte)) (image_path : string) :
  (image_files !! image_path = None →
   Utils.encode_image_to_base64 image_files image_path = None)
  ∧ (∀ data, image_files !! image_path = Some data →
       ∃ b64, Utils.encode_image_to_base64 image_files image_path = Some b64
              ∧ b64 = Base64.b64encode data
              ∧ b64_bytes b64 = Some data
              ∧ str_len b64 = 4 * ((length data + 2) `div` 3)
              ∧ (Utils.is_base64_image (PyStr b64) = true ↔ 148 ≤ length data)).
Proof.
  unfold Utils.encode_image_to_base64. split.
  - by intros ->.
  - intros data ->. exists (Base64.b64encode data). split; [done|]. split; [done|].
    split; [apply b64_bytes_b64encode|]. apply b64encode_image_lemma.
Qed.

Lemma b64encode_is_image_witness :
  Utils.is_base64_image (PyStr (Base64.b64encode (replicate 150 Byte.x41))) = true.
Proof.
  apply (proj2 (b64encode_is_image (replicate 150 Byte.x41))).
  vm_compute. lia.
Defined.

Lemma encode_image_to_base64_is_image_witness :
  Utils.encode_image_to_base64 {[ "figure.jpg" := [Byte.x41; Byte.x42; Byte.x43] ]}
    "figure.jpg" = Some "QUJD"
  ∧ (∃ b64,
       Utils.encode_image_to_base64 {[ "figure.jpg" := replicate 150 Byte.x41 ]}
         "figure.jpg" = Some b64
       ∧ Utils.is_base64_image (PyStr b64) = true)
  ∧ Utils.encode_image_to_base64 {[ "figure.jpg" := replicate 150 Byte.x41 ]}
      "missing.jpg" = None.
Proof.
  split; [|split].
  - destruct (proj2 (encode_image_to_base64_is_image
                       {[ "figure.jpg" := [Byte.x41; Byte.x42; Byte.x43] ]}
                       "figure.jpg")
                [Byte.x41; Byte.x42; Byte.x43] (lookup_singleton_eq _ _))
      as (b64 & Hb64 & -> & _).
    exact Hb64.
  - destruct (proj2 (encode_image_to_base64_is_image
                       {[ "figure.jpg" := replicate 150 Byte.x41 ]} "figure.jpg")
                (replicate 150 Byte.x41) (lookup_singleton_eq _ _))
      as (b64 & Hb64 & _ & _ & _ & Himage).
    exists b64. split; [exact Hb64|]. apply Himage. vm_compute. lia.
  - apply (proj1 (encode_image_to_base64_is_image
                    {[ "figure.jpg" := replicate 150 Byte.x41 ]} "missing.jpg")).
    by apply lookup_singleton_ne.
Defined.

(** ** What is_base64_image looks at *)

Lemma lang_star_set_chars (items : list Re.class_item) (s : string) :
  Re.lang (Re.Star (Re.Set_ items)) s → all_chars (Re.class_has items) s = true.
Proof.
  intros H. remember (Re.Star (Re.Set_ items)) as r eqn:Hr.
  induction H as [| | | | | |r0 s1 s2 H1 _ H2 IH2]; try discriminate; [done|].
  injection Hr as ->.
  apply lang_set_inv in H1 as (c & -> & Hc).
  rewrite str_app_cons, str_app_nil_l. cbn. rewrite Hc. by apply IH2.
Qed.

Lemma b64_pattern_chars (s : string) :
  Re.lang Utils.b64_pattern s → all_chars b64_allowed s = true.
Proof.
  unfold Utils.b64_pattern, Re.Plus, Re.Chr.
  intros (s1 & s2 & -> & H1 & H2)%lang_seq_inv.
  apply lang_seq_inv in H1 as (s11 & s12 & -> & H11 & H12).
  apply lang_set_inv in H11 as (c & -> & Hc).
  apply lang_star_set_chars in H12, H2.
  assert (Hclass : ∀ c', Re.class_has Utils.b64_class c' = true → b64_allowed c' = true).
  { intros c' Hc'. unfold b64_allowed. by rewrite Hc'. }
  assert (Hpad : ∀ c', Re.class_has [Re.CChar "="%char] c' = true → b64_allowed c' = true).
  { intros c'. unfold b64_allowed, Re.class_has. cbn. rewrite orb_false_r.
    intros ->. apply orb_true_r. }
  rewrite !all_chars_app. cbn [all_chars].
  rewrite (Hclass c Hc), (all_chars_impl _ _ _ Hclass H12), (all_chars_impl _ _ _ Hpad H2).
  done.
Qed.

Lemma strip_final_newline_Some (s s' : string) :
  Re.strip_final_newline s = Some s' → s = s' +:+ String Re.newline "".
Proof.
  revert s'. induction s as [|c s IH]; intros s'; [done|].
  destruct s as [|c2 s2].
  - cbn [Re.strip_final_newline].
    destruct (Ascii.eqb c Re.newline) eqn:Hc; [|done].
    apply Ascii.eqb_eq in Hc as ->. intros [= <-]. reflexivity.
  - change (Re.strip_final_newline (String c (String c2 s2)))
      with (option_map (String c) (Re.strip_final_newline (String c2 s2))).
    destruct (Re.strip_final_newline (String c2 s2)) as [t|]; cbn [option_map];
      [|done].
    intros [= <-]. rewrite str_app_cons. f_equal. by apply IH.
Qed.

Lemma match_to_dollar_chars (s : string) :
  Re.match_to_dollar Utils.b64_pattern s = true → all_chars b64_allowed s = true.
Proof.
  unfold Re.match_to_dollar. intros [H|H]%orb_true_iff.
  - by apply b64_pattern_chars, fullmatch_lang.
  - destruct (Re.strip_final_newline s) as [s'|] eqn:Hs; [|done].
    apply strip_final_newline_Some in Hs as ->.
    rewrite all_chars_app. apply fullmatch_lang, b64_pattern_chars in H.
    by rewrite H.
Qed.

(** X2: A text that has, among its first 500 characters, a character other than
    a letter, a digit, [+], [/], [=], a newline or a carriage return (a
    space, say) is never classified as an image, however long it is. *)
Theorem is_base64_image_rejects (pre post : string) (c : ascii) :
  str_len pre < 500 → b64_allowed c = false →
  Utils.is_base64_image (PyStr (pre +:+ String c post)) = false.
Proof.
  intros Hpre Hc. unfold Utils.is_base64_image.
  destruct (str_len (pre +:+ String c post) <? 200); [done|].
  destruct (Re.match_to_dollar Utils.b64_pattern
              (str_prefix 500 (pre +:+ String c post))) eqn:Hmatch; [|done].
  apply match_to_dollar_chars in Hmatch.
  rewrite str_prefix_app in Hmatch.
  destruct (decide (500 < str_len pre)); [lia|].
  rewrite all_chars_app in Hmatch.
  destruct (500 - str_len pre) as [|k] eqn:Hk; [lia|].
  cbn [str_prefix] in Hmatch.
  destruct (continues_char c); cbn [all_chars] in Hmatch; rewrite Hc in Hmatch;
    by rewrite andb_false_r in Hmatch.
Qed.

Lemma is_base64_image_rejects_witness :
  Utils.is_base64_image
    (PyStr ("Revenue" +:+ String " " (repeat_char "A" 300))) = false.
Proof.
  apply (is_base64_image_rejects "Revenue" (repeat_char "A" 300) " ").
  - cbn. lia.
  - reflexivity.
Defined.

Lemma str_prefix_0_whole (s : string) : begins_whole s = true → str_prefix 0 s = "".
Proof. destruct s as [|c s]; [done|]. cbn. by destruct (continues_char c). Qed.

(** X3: Only the first 500 characters count: the text [rest] that follows
    them changes nothing, so a text that begins with 500 letters is taken
    for an image whatever comes after. *)
Theorem is_base64_image_prefix_only (text rest : string) :
  500 ≤ str_len text → begins_whole rest = true →
  Utils.is_base64_image (PyStr (text +:+ rest)) = Utils.is_base64_image (PyStr text)
  ∧ (all_chars b64_symbol (str_prefix 500 text) = true →
     Utils.is_base64_image (PyStr (text +:+ rest)) = true).
Proof.
  intros Hlen Hrest.
  assert (Heq : Utils.is_base64_image (PyStr (text +:+ rest))
                = Utils.is_base64_image (PyStr text)).
  { unfold Utils.is_base64_image. rewrite str_len_app.
    destruct (Nat.ltb_spec (str_len text + str_len rest) 200); [lia|].
    destruct (Nat.ltb_spec (str_len text) 200); [lia|].
    rewrite str_prefix_app. destruct (decide (500 < str_len text)); [done|].
    assert (str_len text = 500) as -> by lia.
    rewrite Nat.sub_diag, str_prefix_0_whole, str_app_nil_r by done.
    by rewrite str_prefix_all by lia. }
  split; [done|]. intros Hsym. rewrite Heq.
  unfold Utils.is_base64_image.
  destruct (Nat.ltb_spec (str_len text) 200); [lia|].
  unfold Re.match_to_dollar.
  rewrite <- (str_app_nil_r (str_prefix 500 text)).
  change "" with (repeat_char "=" 0).
  rewrite b64_pattern_padded; [done| |done].
  apply str_prefix_nonempty; [lia|]. intros ->. cbn in Hlen. lia.
Qed.

Lemma is_base64_image_prefix_only_witness :
  Utils.is_base64_image
    (PyStr (repeat_char "a" 500 +:+ " is how the report starts.")) = true.
Proof.
  apply (is_base64_image_prefix_only (repeat_char "a" 500) " is how the report starts.").
  - by rewrite str_len_repeat.
  - reflexivity.
  - vm_compute. reflexivity.
Defined.

(** ** Characters of more than one byte *)

(** The first 500 characters of a text with a character of three bytes at
    the cut are 502 bytes, and a text of three such characters has length
    three. *)
Example str_prefix_keeps_characters :
  str_prefix 500 (repeat_char "A" 499 +:+ "€" +:+ repeat_char "B" 10)
  = repeat_char "A" 499 +:+ "€"
  ∧ str_len (repeat_char "A" 499 +:+ "€" +:+ repeat_char "B" 10) = 510
  ∧ String.length (repeat_char "A" 499 +:+ "€") = 502
  ∧ str_len "日本語" = 3
  ∧ str_len " …" = 2.
Proof. vm_compute. done. Qed.

(** ** truncate *)

Lemma str_slice_to_nonneg (text : string) (hi : Z) :
  (0 ≤ hi)%Z → str_slice_to text hi = str_prefix (Z.to_nat hi) text.
Proof.
  intros Hhi. unfold str_slice_to. by destruct (Z.ltb_spec hi 0); [lia|].
Qed.

(** X1: [truncate] with a bound that is not negative returns a text of at
    most [max_len] characters as it is, and otherwise its first [max_len]
    characters followed by a space and an ellipsis, two characters more;
    doing it again changes nothing.  With a negative bound the text is cut
    from the end and the ellipsis is always added. *)
Theorem truncate_bounds (text : string) (max_len : Z) :
  ((0 ≤ max_len)%Z → str_len text ≤ Z.to_nat max_len →
   Utils.truncate text max_len = text)
  ∧ ((0 ≤ max_len)%Z → Z.to_nat max_len < str_len text →
     Utils.truncate text max_len = str_prefix (Z.to_nat max_len) text +:+ " …"
     ∧ str_len (Utils.truncate text max_len) = Z.to_nat max_len + 2)
  ∧ ((0 ≤ max_len)%Z →
     Utils.truncate (Utils.truncate text max_len) max_len
     = Utils.truncate text max_len)
  ∧ ((max_len < 0)%Z →
     Utils.truncate text max_len
     = str_prefix (str_len text - Z.to_nat (- max_len)) text +:+ " …").
Proof.
  assert (Hlong : (0 ≤ max_len)%Z → Z.to_nat max_len < str_len text →
     Utils.truncate text max_len
     = str_prefix (Z.to_nat max_len) text +:+ " …").
  { intros Hpos Hlen. unfold Utils.truncate.
    destruct (Z.leb_spec (Z.of_nat (str_len text)) max_len); [lia|].
    by rewrite str_slice_to_nonneg. }
  assert (Hfits : ∀ t, (0 ≤ max_len)%Z → str_len t ≤ Z.to_nat max_len →
     Utils.truncate t max_len = t).
  { intros t Hpos Hlen. unfold Utils.truncate.
    by destruct (Z.leb_spec (Z.of_nat (str_len t)) max_len); [|lia]. }
  assert (Hell : str_len " …" = 2) by reflexivity.
  split; [apply Hfits|]. split; [|split].
  - intros Hpos Hlen. split; [by apply Hlong|].
    rewrite Hlong, str_len_app, str_prefix_length, Hell by done. lia.
  - intros Hpos.
    destruct (decide (str_len text ≤ Z.to_nat max_len)) as [Hle|Hgt].
    { rewrite (Hfits text) by done. by apply Hfits. }
    rewrite Hlong by lia. unfold Utils.truncate at 1.
    rewrite str_len_app, str_prefix_length, Hell.
    destruct (Z.leb_spec (Z.of_nat (Z.to_nat max_len `min` str_len text + 2)) max_len)
      as [Hfit|_]; [lia|].
    rewrite str_slice_to_nonneg by done. rewrite str_prefix_app.
    rewrite decide_False by (rewrite str_prefix_length; lia).
    rewrite str_prefix_length.
    replace (Z.to_nat max_len - Z.to_nat max_len `min` str_len text) with 0 by lia.
    change (str_prefix 0 " …") with "". by rewrite str_app_nil_r.
  - intros Hneg. unfold Utils.truncate.
    destruct (Z.leb_spec (Z.of_nat (str_len text)) max_len); [lia|].
    unfold str_slice_to. destruct (Z.ltb_spec max_len 0); [|lia].
    do 2 f_equal. lia.
Qed.

Lemma truncate_bounds_witness :
  Utils.truncate "Revenue grew 10%" 7 = "Revenue …"
  ∧ Utils.truncate "日本語です" 3 = "日本語 …"
  ∧ Utils.truncate "日本語" 3 = "日本語"
  ∧ Utils.truncate (Utils.truncate "Revenue grew 10%" 7) 7
    = Utils.truncate "Revenue grew 10%" 7
  ∧ Utils.truncate "" (-1) = " …".
Proof.
  pose proof (truncate_bounds "Revenue grew 10%" 7) as (_ & Hlong & Hagain & _).
  pose proof (truncate_bounds "日本語です" 3) as (_ & Hcut & _).
  pose proof (truncate_bounds "日本語" 3) as (Hfits & _).
  pose proof (truncate_bounds "" (-1)) as (_ & _ & _ & Hneg).
  split; [|split; [|split; [|split]]].
  - apply Hlong; [lia|cbn; lia].
  - apply Hcut; [lia|cbn; lia].
  - apply Hfits; [lia|cbn; lia].
  - apply Hagain. lia.
  - apply Hneg. lia.
Defined.

(** ** More on the docstore and the registry *)

Lemma kept_snapshot (store : gmap string pyobj) (k : string) :
  kept (Utils.snapshot store) k = kept store k.
Proof.
  unfold kept at 1. rewrite snapshot_lookup. unfold kept.
  destruct (store !! k) as [v|]; [|done]. by destruct v.
Qed.



Lemma mset_lookup_other (store : gmap string pyobj) (pairs : list (string * pyobj))
    (k : string) :
  k ∉ pairs.*1 → Utils.mset store pairs !! k = store !! k.
Proof.
  unfold Utils.mset. revert store.
  induction pairs as [|[k' v] pairs IH]; intros store Hk; [done|].
  rewrite fmap_cons in Hk. apply not_elem_of_cons in Hk as [Hne Hk].
  cbn [foldl]. rewrite IH by done. cbn. by rewrite lookup_insert_ne.
Qed.

(** Writing values under distinct keys with [mset] and reading the keys
    back with [mget] gives the values written; keys that are not written keep
    what they had; and for [mget] a key that is not in the store looks the
    same as a key whose value is [None]. *)
Lemma docstore_mset_mget (store : gmap string pyobj) (keys : list string)
    (values : list pyobj) :
  (NoDup keys → length keys = length values →
   Utils.mget (Utils.mset store (zip keys values)) keys = values)
  ∧ (∀ k, k ∉ keys → Utils.mset store (zip keys values) !! k = store !! k)
  ∧ (∀ k, store !! k = None →
       Utils.mget store [k] = Utils.mget (<[k := PyNone]> store) [k]).
Proof.
  split; [|split].
  - intros Hnd Hlen. apply list_eq. intros i. unfold Utils.mget.
    rewrite list_lookup_fmap.
    destruct (keys !! i) as [k|] eqn:Hk; cbn.
    + destruct (lookup_lt_is_Some_2 values i) as [v Hv].
      { rewrite <- Hlen. by eapply lookup_lt_Some. }
      rewrite Hv. f_equal.
      rewrite (mset_lookup_pair store (zip keys values) i k v); [done| |].
      * rewrite fst_zip by lia. done.
      * apply lookup_zip_with_Some. by exists k, v.
    + symmetry. apply lookup_ge_None. rewrite <- Hlen. by apply lookup_ge_None.
  - intros k Hk. apply mset_lookup_other.
    intros Hin. apply Hk. apply list_elem_of_fmap in Hin as ([k' v] & -> & Hin).
    apply list_elem_of_lookup in Hin as [i Hi].
    apply lookup_zip_with_Some in Hi as (k'' & v'' & [= -> ->] & Hk'' & _).
    by eapply list_elem_of_lookup_2.
  - intros k Hk. unfold Utils.mget. cbn. by rewrite Hk, lookup_insert_eq.
Qed.

Lemma docstore_mset_mget_witness :
  Utils.mget (Utils.mset ∅ (zip ["id-1"; "id-2"] [PyStr "one"; PyStr "two"]))
    ["id-1"; "id-2"]
  = [PyStr "one"; PyStr "two"].
Proof.
  apply (proj1 (docstore_mset_mget ∅ ["id-1"; "id-2"] [PyStr "one"; PyStr "two"])).
  - apply NoDup_cons. split; [|apply NoDup_singleton].
    intros [=]%list_elem_of_singleton.
  - reflexivity.
Defined.

(** X6: The registry does not depend on the order in which names are entered:
    entering two names one way round or the other leaves the same files, or
    raises the same exception.  On a registry that can be read and written,
    a name that has been entered is in the registry, and no name is lost. *)
Theorem registry_order_irrelevant (a b json_path : string) (fs : Utils.filesystem) :
  (fs_b ← Utils.save_indexed_pdf b json_path fs; Utils.save_indexed_pdf a json_path fs_b)
  = (fs_a ← Utils.save_indexed_pdf a json_path fs; Utils.save_indexed_pdf b json_path fs_a)
  ∧ (∀ existing : gset string,
       Utils.load_indexed_pdfs json_path fs = Ok existing →
       json_path ∉ Utils.write_fails fs →
       ∃ fs_a after,
         Utils.save_indexed_pdf a json_path fs = Ok fs_a
         ∧ Utils.load_indexed_pdfs json_path fs_a = Ok after
         ∧ a ∈ after
         ∧ existing ⊆ after).
Proof.
  split.
  - destruct (Utils.load_indexed_pdfs json_path fs) as [existing|e] eqn:Hload.
    2:{ unfold Utils.save_indexed_pdf. rewrite Hload. done. }
    destruct (decide (json_path ∈ Utils.write_fails fs)) as [Hw|Hw].
    { unfold Utils.save_indexed_pdf. rewrite Hload. cbn.
      by rewrite !write_file_raises. }
    destruct (save_indexed_pdf_ok a json_path fs existing Hload Hw) as [-> Hload_a].
    destruct (save_indexed_pdf_ok b json_path fs existing Hload Hw) as [-> Hload_b].
    cbn.
    destruct (save_indexed_pdf_ok a json_path _ _ Hload_b Hw) as [-> _].
    destruct (save_indexed_pdf_ok b json_path _ _ Hload_a Hw) as [-> _].
    cbn. rewrite !insert_insert_eq.
    assert (Heq : ({[a]} ∪ ({[b]} ∪ existing) : gset string) = {[b]} ∪ ({[a]} ∪ existing)).
    { apply set_eq. intros x. rewrite !elem_of_union. tauto. }
    by rewrite Heq.
  - intros existing Hload Hw.
    destruct (save_indexed_pdf_ok a json_path fs existing Hload Hw) as [Hsave Hload_a].
    eexists _, _. split; [exact Hsave|]. split; [exact Hload_a|]. split.
    + apply elem_of_union. left. by apply elem_of_singleton.
    + intros x Hx. apply elem_of_union. by right.
Qed.

(** ** More on summarise_texts *)

(** X7: With a batch size that is not positive nothing is summarised: zero
    raises [ValueError], a negative size gives an empty result without a
    call; only the empty input is served for every size. *)
Theorem summarise_texts_bad_concurrency
    (llm_invoke : nat → list message → option string)
    (texts : list string) (concurrency : Z) :
  texts ≠ [] →
  (concurrency = 0%Z →
   Summarizer.summarise_texts llm_invoke texts concurrency = Raise ValueError)
  ∧ ((concurrency < 0)%Z →
     Summarizer.summarise_texts llm_invoke texts concurrency = Ok []).
Proof.
  intros Hne. destruct texts as [|t texts]; [done|].
  unfold Summarizer.summarise_texts, py_range. split.
  - by intros ->.
  - intros Hneg.
    destruct (Z.eqb_spec concurrency 0); [lia|].
    destruct (Z.ltb_spec 0 concurrency); [lia|].
    by destruct (Z.ltb_spec (Z.of_nat (length (t :: texts))) 0); [lia|].
Qed.

Lemma summarise_texts_bad_concurrency_witness :
  Summarizer.summarise_texts unit_1_fails ["alpha"; "beta"] 0 = Raise ValueError
  ∧ Summarizer.summarise_texts unit_1_fails ["alpha"; "beta"] (-3) = Ok [].
Proof.
  pose proof (summarise_texts_bad_concurrency unit_1_fails ["alpha"; "beta"] 0
                ltac:(discriminate)) as [Hzero _].
  pose proof (summarise_texts_bad_concurrency unit_1_fails ["alpha"; "beta"] (-3)
                ltac:(discriminate)) as [_ Hneg].
  split; [apply Hzero; reflexivity|apply Hneg; lia].
Defined.

Lemma chain_batch_all_answer (llm_invoke : nat → list message → option string)
    (start : nat) (batch : list string) :
  (∀ j t, batch !! j = Some t →
     is_Some (Summarizer.chain_invoke llm_invoke (start + j) t)) →
  is_Some (Summarizer.chain_batch llm_invoke start batch).
Proof.
  revert start. induction batch as [|t batch IH]; intros start Hall; [by eexists|].
  cbn [Summarizer.chain_batch].
  destruct (Hall 0 t eq_refl) as [r Hr]. rewrite Nat.add_0_r in Hr. rewrite Hr.
  destruct (IH (S start)) as [rs Hrs].
  { intros j t' Ht'. rewrite Nat.add_succ_comm. by apply (Hall (S j)). }
  rewrite Hrs. by eexists.
Qed.

Lemma summarise_texts_returns (llm_invoke : nat → list message → option string)
    (texts : list string) (concurrency : Z) :
  (0 < concurrency)%Z →
  ∃ out, Summarizer.summarise_texts llm_invoke texts concurrency = Ok out
         ∧ length out = length texts.
Proof.
  intros Hpos. destruct (decide (texts = [])) as [->|Hne]; [by exists []|].
  destruct (summarise_texts_batches llm_invoke texts concurrency Hpos Hne)
    as (out & Hout & Hlen & _). by exists out.
Qed.

(** What [summarise_texts] returns for a unit, for a positive batch size:
    the answer of its call when every call of its batch answers. *)
Lemma summarise_texts_unit (llm_invoke : nat → list message → option string)
    (texts : list string) (concurrency : Z) (out : list string) :
  (0 < concurrency)%Z →
  Summarizer.summarise_texts llm_invoke texts concurrency = Ok out →
  ∀ i t, texts !! i = Some t →
    ∃ k o, i = k * Z.to_nat concurrency + o
           ∧ chunk texts (Z.to_nat concurrency) k !! o = Some t
           ∧ out !! i
             = batch_output llm_invoke (k * Z.to_nat concurrency)
                 (chunk texts (Z.to_nat concurrency) k) !! o.
Proof.
  intros Hpos Hout i t Ht.
  assert (Hne : texts ≠ []) by (intros ->; done).
  destruct (summarise_texts_batches llm_invoke texts concurrency Hpos Hne)
    as (out' & Hout' & _ & Hbatches).
  assert (out' = out) as -> by congruence.
  destruct (unit_in_chunk texts concurrency Hpos i t Ht) as (k & o & -> & Ho & Hchunk).
  exists k, o. split; [done|]. split; [done|]. by apply Hbatches.
Qed.

(** X8: When the call of every unit answers, the result is the list of the
    answers, whatever the positive batch size is. *)
Theorem summarise_texts_all_answer
    (llm_invoke : nat → list message → option string) (texts : list string) :
  (∀ i t, texts !! i = Some t →
     is_Some (Summarizer.chain_invoke llm_invoke i t)) →
  ∀ concurrency : Z, (0 < concurrency)%Z →
    ∃ out,
      Summarizer.summarise_texts llm_invoke texts concurrency = Ok out
      ∧ length out = length texts
      ∧ (∀ i t, texts !! i = Some t →
           out !! i = Summarizer.chain_invoke llm_invoke i t)
      ∧ (∀ concurrency' : Z, (0 < concurrency')%Z →
           Summarizer.summarise_texts llm_invoke texts concurrency' = Ok out).
Proof.
  intros Hall.
  assert (Hone : ∀ c : Z, (0 < c)%Z →
    ∃ out, Summarizer.summarise_texts llm_invoke texts c = Ok out
           ∧ length out = length texts
           ∧ ∀ i t, texts !! i = Some t →
               out !! i = Summarizer.chain_invoke llm_invoke i t).
  { intros c Hc.
    destruct (summarise_texts_returns llm_invoke texts c Hc)
      as (out & Hout & Hlen). exists out. split; [done|]. split; [done|].
    intros i t Ht.
    destruct (summarise_texts_unit llm_invoke texts c out Hc Hout i t Ht)
      as (k & o & -> & Hchunk & ->).
    unfold batch_output.
    destruct (chain_batch_all_answer llm_invoke (k * Z.to_nat c)
                (chunk texts (Z.to_nat c) k)) as [rs Hrs].
    { intros j t' Ht'. apply Hall.
      rewrite <- chunk_lookup; [done|].
      pose proof (lookup_lt_Some _ _ _ Ht') as Hj. rewrite chunk_length in Hj. lia. }
    rewrite Hrs.
    destruct (chain_batch_lookup llm_invoke _ _ _ _ _ Hrs Hchunk) as (s & -> & ->).
    done. }
  intros concurrency Hpos.
  destruct (Hone concurrency Hpos) as (out & Hout & Hlen & Hunits).
  exists out. split; [done|]. split; [done|]. split; [done|].
  intros c' Hc'. destruct (Hone c' Hc') as (out' & -> & Hlen' & Hunits').
  f_equal. apply list_eq. intros i.
  destruct (texts !! i) as [t|] eqn:Ht.
  - by rewrite (Hunits i t Ht), (Hunits' i t Ht).
  - apply lookup_ge_None in Ht.
    rewrite (proj2 (lookup_ge_None out' i)), (proj2 (lookup_ge_None out i)); [done|lia..].
Qed.

Lemma summarise_texts_all_answer_witness :
  ∃ out,
    Summarizer.summarise_texts (λ _ _, Some "summary") ["alpha"; "beta"; "gamma"] 2
    = Ok out
    ∧ Summarizer.summarise_texts (λ _ _, Some "summary") ["alpha"; "beta"; "gamma"] 5
      = Ok out.
Proof.
  destruct (summarise_texts_all_answer (λ _ _, Some "summary")
              ["alpha"; "beta"; "gamma"]
              ltac:(intros i t _; by eexists) 2%Z ltac:(lia))
    as (out & Hout & _ & _ & Hany).
  exists out. split; [exact Hout|]. apply Hany. lia.
Defined.


Lemma chunks_join (texts : list string) (size m : nat) :
  mjoin (chunk texts size <$> seq 0 m) = take (m * size) texts.
Proof.
  induction m as [|m IH]; [done|].
  rewrite seq_S, fmap_app, join_app, IH. cbn [fmap list_fmap mjoin list_join].
  rewrite app_nil_r. unfold chunk. cbn [Nat.add].
  replace (S m * size) with (m * size + size) by lia.
  assert (take (m * size) texts = take (m * size) (take (m * size + size) texts)) as ->
    by (rewrite take_take; f_equal; lia).
  apply take_drop.
Qed.

Lemma turns_tight (texts : list string) (concurrency : Z) :
  (0 < concurrency)%Z → texts ≠ [] →
  (turns texts concurrency - 1) * Z.to_nat concurrency < length texts.
Proof.
  intros Hpos Hne. unfold turns.
  assert (0 < length texts) by (destruct texts; [done|cbn; lia]).
  pose proof (Z.mul_div_le (Z.of_nat (length texts) - 0 - 1) concurrency Hpos).
  assert (0 ≤ (Z.of_nat (length texts) - 0 - 1) / concurrency)%Z
    by (apply Z.div_pos; lia).
  apply Nat2Z.inj_lt. rewrite Nat2Z.inj_mul, Nat2Z.inj_sub, !Z2Nat.id by lia. lia.
Qed.

(** X10: The batches of [summarise_texts] for a positive batch size, one after
    the other, are the input: no unit is left out and none is taken twice;
    and no batch is empty or longer than the batch size. *)
Theorem summarise_texts_batches_cover (texts : list string) (concurrency : Z) :
  (0 < concurrency)%Z →
  ∃ starts,
    py_range 0 (Z.of_nat (length texts)) concurrency = Ok starts
    ∧ mjoin ((λ start, py_slice texts start (start + concurrency)) <$> starts) = texts
    ∧ ∀ start, start ∈ starts →
        0 < length (py_slice texts start (start + concurrency)) ≤ Z.to_nat concurrency.
Proof.
  intros Hpos. destruct (decide (texts = [])) as [->|Hne].
  { exists []. split; [|split; [done|by intros ? ?%elem_of_nil]].
    unfold py_range. cbn.
    destruct (Z.eqb_spec concurrency 0); [lia|].
    by destruct (Z.ltb_spec 0 concurrency); [|lia]. }
  eexists. split; [by apply py_range_batches|]. split.
  - rewrite <- list_fmap_compose.
    rewrite (list_fmap_ext _ (chunk texts (Z.to_nat concurrency)));
      [|intros i j _; cbn; rewrite Z.add_0_l;
        apply (py_slice_chunk texts concurrency j Hpos)].
    rewrite chunks_join. apply take_ge. by apply turns_cover.
  - intros start (k & -> & Hk%elem_of_seq)%list_elem_of_fmap.
    rewrite Z.add_0_l.
    destruct (py_slice_chunk texts concurrency k Hpos) as [-> _].
    rewrite chunk_length.
    pose proof (turns_tight texts concurrency Hpos Hne).
    assert (k * Z.to_nat concurrency ≤ (turns texts concurrency - 1) * Z.to_nat concurrency)
      by (apply Nat.mul_le_mono_r; lia).
    lia.
Qed.

Lemma summarise_texts_batches_cover_witness :
  ∃ starts,
    py_range 0 (Z.of_nat (length ["alpha"; "beta"; "gamma"])) 2 = Ok starts
    ∧ mjoin ((λ start, py_slice ["alpha"; "beta"; "gamma"] start (start + 2)) <$> starts)
      = ["alpha"; "beta"; "gamma"].
Proof.
  destruct (summarise_texts_batches_cover ["alpha"; "beta"; "gamma"] 2 ltac:(lia))
    as (starts & Hstarts & Hjoin & _).
  exists starts. split; [exact Hstarts|exact Hjoin].
Defined.

(** ** Indexing keeps the two stores linked *)

Lemma mset_snoc (store : gmap string pyobj) (pairs : list (string * pyobj))
    (k : string) (v : pyobj) :
  Utils.mset store (pairs ++ [(k, v)]) = <[k := v]> (Utils.mset store pairs).
Proof. unfold Utils.mset. by rewrite foldl_app. Qed.

Lemma mset_lookup_in (store : gmap string pyobj) (pairs : list (string * pyobj))
    (k : string) :
  k ∈ pairs.*1 → ∃ v, (k, v) ∈ pairs ∧ Utils.mset store pairs !! k = Some v.
Proof.
  induction pairs as [|[k' v'] pairs IH] using rev_ind; [by intros ?%elem_of_nil|].
  rewrite fmap_app, mset_snoc. intros Hk.
  destruct (decide (k = k')) as [->|Hne].
  - exists v'. rewrite lookup_insert_eq. split; [|done].
    apply elem_of_app. right. by apply list_elem_of_singleton.
  - apply elem_of_app in Hk as [Hk|Hk%list_elem_of_singleton]; [|done].
    destruct (IH Hk) as (v & Hv & Hlook). exists v.
    rewrite lookup_insert_ne by done. split; [|done].
    apply elem_of_app. by left.
Qed.

Lemma elem_of_zip_lookup {A B} (l : list A) (k : list B) (x : A) (y : B) :
  (x, y) ∈ zip l k ↔ ∃ i, l !! i = Some x ∧ k !! i = Some y.
Proof.
  rewrite list_elem_of_lookup. split.
  - intros (i & Hi). exists i.
    apply lookup_zip_with_Some in Hi as (x' & y' & [= -> ->] & ? & ?). done.
  - intros (i & Hx & Hy). exists i. apply lookup_zip_with_Some. by exists x, y.
Qed.

Lemma elem_of_zip_lookup_2 {A B} (l : list A) (k : list B) (i : nat) (x : A) (y : B) :
  l !! i = Some x → k !! i = Some y → zip l k !! i = Some (x, y).
Proof. intros Hx Hy. apply lookup_zip_with_Some. by exists x, y. Qed.

(** A value other than [None] stays one when strings are written with
    [mset]. *)
Lemma kept_mset_strings (store : gmap string pyobj) (ids originals : list string)
    (k : string) :
  is_Some (kept store k) →
  is_Some (kept (Utils.mset store (zip ids (PyStr <$> originals))) k).
Proof.
  intros Hk. unfold kept.
  destruct (decide (k ∈ (zip ids (PyStr <$> originals)).*1)) as [Hin|Hnin].
  - destruct (mset_lookup_in store _ k Hin) as (v & Hv & ->).
    apply elem_of_zip_lookup in Hv as (i & _ & Hv).
    rewrite list_lookup_fmap in Hv. destruct (originals !! i); [|done].
    injection Hv as <-. by eexists.
  - by rewrite mset_lookup_other.
Qed.

Section Links.

Variable uuid4 : nat → string.
Variable embeddings_ok : list document → bool.

(** The four outcomes of [add_texts_to_store]. *)
Lemma add_texts_to_store_cases (w : VectorStore.world)
    (summaries originals : list string) (path : string) :
  let doc_ids := VectorStore.fresh_ids uuid4 summaries w in
  let docs := VectorStore.summary_docs doc_ids summaries in
  let store' :=
    Utils.mset (VectorStore.docstore w) (zip doc_ids (PyStr <$> originals)) in
  let out := VectorStore.add_texts_to_store uuid4 embeddings_ok w summaries originals path in
  (summaries = [] ∧ out = (w, None))
  ∨ (summaries ≠ [] ∧ embeddings_ok docs = false
     ∧ out = (VectorStore.draw_uuids (length summaries) w, Some EmbeddingError))
  ∨ (summaries ≠ [] ∧ embeddings_ok docs = true
     ∧ VectorStore.chroma out.1 = VectorStore.chroma w ++ docs
     ∧ VectorStore.docstore out.1 = store'
     ∧ VectorStore.uuids_drawn out.1 = VectorStore.uuids_drawn w + length summaries
     ∧ (((path ∉ Utils.write_fails (VectorStore.disk w))
         ∧ out.2 = None
         ∧ VectorStore.disk out.1
           = Utils.Filesystem
               (<[path := Utils.PickleFile (Utils.snapshot store')]>
                  (Utils.files (VectorStore.disk w)))
               (Utils.write_fails (VectorStore.disk w)))
        ∨ (path ∈ Utils.write_fails (VectorStore.disk w)
           ∧ out.2 = Some OSError
           ∧ VectorStore.disk out.1 = VectorStore.disk w))).
Proof.
  cbn zeta. destruct summaries as [|s summaries'] eqn:Hs; [by left|]. right.
  unfold VectorStore.add_texts_to_store, VectorStore.and_then, VectorStore.add_documents.
  cbn [VectorStore.draw_uuids VectorStore.chroma VectorStore.docstore
       VectorStore.disk VectorStore.uuids_drawn VectorStore.trace].
  destruct (embeddings_ok _) eqn:Hok; [right|left]; [|done].
  cbn [fst snd].
  unfold VectorStore.docstore_save, VectorStore.docstore_mset, Utils.save_docstore.
  cbn [VectorStore.chroma VectorStore.docstore VectorStore.disk
       VectorStore.uuids_drawn VectorStore.trace].
  destruct (decide (path ∈ Utils.write_fails (VectorStore.disk w))) as [Hw|Hw].
  - rewrite write_file_raises by done. cbn.
    split; [done|]. split; [done|]. split; [done|]. split; [done|]. split; [done|].
    right. done.
  - rewrite write_file_ok by done. cbn.
    split; [done|]. split; [done|]. split; [done|]. split; [done|]. split; [done|].
    left. done.
Qed.

Lemma add_images_to_store_eq (w : VectorStore.world)
    (summaries images_b64 : list string) (path : string) :
  VectorStore.add_images_to_store uuid4 embeddings_ok w summaries images_b64 path
  = VectorStore.add_texts_to_store uuid4 embeddings_ok w summaries images_b64 path.
Proof. reflexivity. Qed.

Lemma add_texts_to_store_links (w : VectorStore.world)
    (summaries originals : list string) (path : string) :
  let w' :=
    (VectorStore.add_texts_to_store uuid4 embeddings_ok w summaries originals path).1 in
  (length summaries ≤ length originals → linked w → linked w')
  ∧ VectorStore.chroma w `prefix_of` VectorStore.chroma w'
  ∧ Utils.write_fails (VectorStore.disk w') = Utils.write_fails (VectorStore.disk w)
  ∧ (∀ p, p ≠ path →
       Utils.files (VectorStore.disk w') !! p
       = Utils.files (VectorStore.disk w) !! p).
Proof.
  cbn zeta.
  destruct (add_texts_to_store_cases w summaries originals path)
    as [[_ ->]|[(_ & _ & ->)|(Hne & _ & Hchroma & Hstore & _ & Hdisk)]].
  - done.
  - done.
  - split; [|split; [|split]].
    + intros Hlen Hlinked d Hd. rewrite Hchroma in Hd. unfold resolves.
      rewrite Hstore. apply elem_of_app in Hd as [Hd|Hd].
      * destruct (Hlinked d Hd) as (id & v & Hid & Hv).
        destruct (kept_mset_strings (VectorStore.docstore w)
                    (VectorStore.fresh_ids uuid4 summaries w) originals id)
          as [v' Hv']; [by eexists|]. by exists id, v'.
      * apply list_elem_of_lookup in Hd as [i Hi].
        destruct (summaries !! i) as [s|] eqn:Hs.
        2:{ apply lookup_ge_None in Hs.
            apply lookup_lt_Some in Hi. unfold VectorStore.summary_docs in Hi.
            rewrite length_imap in Hi. lia. }
        rewrite (summary_docs_lookup uuid4 w summaries i s Hs) in Hi.
        injection Hi as <-.
        pose proof (lookup_lt_Some _ _ _ Hs) as Hi.
        destruct (lookup_lt_is_Some_2 originals i ltac:(lia)) as [o Ho].
        exists (uuid4 (VectorStore.uuids_drawn w + i)).
        destruct (mset_lookup_in (VectorStore.docstore w)
                    (zip (VectorStore.fresh_ids uuid4 summaries w) (PyStr <$> originals))
                    (uuid4 (VectorStore.uuids_drawn w + i))) as (v & Hv & Hlook).
        { apply list_elem_of_fmap. exists (uuid4 (VectorStore.uuids_drawn w + i), PyStr o).
          split; [done|]. apply elem_of_zip_lookup. exists i.
          rewrite fresh_ids_lookup by done. by rewrite list_lookup_fmap, Ho. }
        apply elem_of_zip_lookup in Hv as (j & _ & Hv).
        rewrite list_lookup_fmap in Hv. destruct (originals !! j) as [o'|]; [|done].
        injection Hv as <-. exists (PyStr o').
        split; [apply lookup_singleton_eq|]. unfold kept. by rewrite Hlook.
    + rewrite Hchroma. by apply prefix_app_r.
    + by destruct Hdisk as [(_ & _ & ->)|(_ & _ & ->)].
    + intros p Hp. destruct Hdisk as [(_ & _ & ->)|(_ & _ & ->)]; [|done].
      cbn. by rewrite lookup_insert_ne.
Qed.

(** After a call that has not raised, the file is in step with the
    docstore if it was before; a call that has written it has brought it in
    step. *)
Lemma add_texts_to_store_persisted (w : VectorStore.world)
    (summaries originals : list string) (path : string) :
  let out := VectorStore.add_texts_to_store uuid4 embeddings_ok w summaries originals path in
  persisted path w → out.2 ≠ Some OSError → persisted path out.1.
Proof.
  cbn zeta. intros Hw. unfold persisted.
  destruct (add_texts_to_store_cases w summaries originals path)
    as [[_ ->]|[(_ & _ & ->)|(_ & _ & _ & Hstore & _ & Hdisk)]]; [done..|].
  destruct Hdisk as [(_ & _ & Hdisk)|(_ & Hout & _)]; [|by rewrite Hout].
  intros _. rewrite Hdisk, Hstore. apply load_docstore_pickle. cbn.
  apply lookup_insert_eq.
Qed.

Lemma add_texts_to_store_writes (w : VectorStore.world)
    (summaries originals : list string) (path : string) :
  let out := VectorStore.add_texts_to_store uuid4 embeddings_ok w summaries originals path in
  (path ∉ Utils.write_fails (VectorStore.disk w) → out.2 ≠ Some OSError)
  ∧ (summaries ≠ [] → out.2 = None →
     Utils.files (VectorStore.disk out.1) !! path
     = Some (Utils.PickleFile (Utils.snapshot (VectorStore.docstore out.1)))).
Proof.
  cbn zeta.
  destruct (add_texts_to_store_cases w summaries originals path)
    as [[-> ->]|[(_ & _ & ->)|(_ & _ & _ & Hstore & _ & Hdisk)]]; [done..|].
  destruct Hdisk as [(_ & Hout & Hdisk)|(Hw & Hout & _)].
  - split; [by rewrite Hout|]. intros _ _. rewrite Hdisk, Hstore. cbn.
    apply lookup_insert_eq.
  - split; [done|]. by rewrite Hout.
Qed.

(** X11: Whatever the outcome of [add_texts_to_store], when every summary has
    its original, every record of the embedding store resolves afterwards
    if every record did before; the records that were there are still there,
    in front; and no file is written but the one at [docstore_path], which
    after a call that has indexed something without raising holds the
    pickled docstore, whatever it held before. *)
Theorem add_texts_to_store_keeps_links (w : VectorStore.world)
    (summaries originals : list string) (path : string) :
  let out := VectorStore.add_texts_to_store uuid4 embeddings_ok w summaries originals path in
  (length summaries ≤ length originals → linked w → linked out.1)
  ∧ VectorStore.chroma w `prefix_of` VectorStore.chroma out.1
  ∧ (∀ p, p ≠ path →
       Utils.files (VectorStore.disk out.1) !! p
       = Utils.files (VectorStore.disk w) !! p)
  ∧ (summaries ≠ [] → out.2 = None →
     Utils.files (VectorStore.disk out.1) !! path
     = Some (Utils.PickleFile (Utils.snapshot (VectorStore.docstore out.1)))).
Proof.
  cbn zeta.
  destruct (add_texts_to_store_links w summaries originals path)
    as (Hlinked & Hprefix & _ & Hframe).
  split; [done|]. split; [done|]. split; [done|].
  apply add_texts_to_store_writes.
Qed.

End Links.

Lemma extends_refl (path : string) (w : VectorStore.world) : extends path w w.
Proof. by split. Qed.

Lemma extends_trans (path : string) (w1 w2 w3 : VectorStore.world) :
  extends path w1 w2 → extends path w2 w3 → extends path w1 w3.
Proof.
  intros (Hc1 & Hj1 & Hp1) (Hc2 & Hj2 & Hp2). split; [by etrans|]. split.
  - by rewrite Hj2.
  - intros p Hp. by rewrite Hp2, Hp1.
Qed.

Lemma and_then_inv (P : VectorStore.world → Prop) (o : VectorStore.outcome)
    (k : VectorStore.world → VectorStore.outcome) :
  P o.1 → (∀ w, P w → P (k w).1) → P (VectorStore.and_then o k).1.
Proof.
  intros Ho Hk. unfold VectorStore.and_then. destruct (o.2); [done|by apply Hk].
Qed.

Lemma and_then_outcome (Q : VectorStore.outcome → Prop) (o : VectorStore.outcome)
    (k : VectorStore.world → VectorStore.outcome) :
  (o.2 ≠ None → Q o) → (o.2 = None → Q (k o.1)) → Q (VectorStore.and_then o k).
Proof.
  intros Hraised Hnext. unfold VectorStore.and_then.
  destruct (o.2) eqn:Ho; [by apply Hraised|by apply Hnext].
Qed.

Section Index.

Variable uuid4 : nat → string.
Variable embeddings_ok : list document → bool.

Lemma add_texts_to_store_extends (w : VectorStore.world)
    (summaries originals : list string) (path : string) :
  extends path w
    (VectorStore.add_texts_to_store uuid4 embeddings_ok w summaries originals path).1.
Proof.
  apply (add_texts_to_store_links uuid4 embeddings_ok w summaries originals path).
Qed.

Lemma index_all_links (w : VectorStore.world)
    (text_summaries texts table_summaries tables image_summaries images_b64 : list string)
    (path : string) :
  let out :=
    VectorStore.index_all uuid4 embeddings_ok w text_summaries texts
      table_summaries tables image_summaries images_b64 path in
  (length text_summaries ≤ length texts →
   length table_summaries ≤ length tables →
   length image_summaries ≤ length images_b64 →
   linked w → linked out.1)
  ∧ (persisted path w → out.2 ≠ Some OSError → persisted path out.1)
  ∧ extends path w out.1
  ∧ (path ∉ Utils.write_fails (VectorStore.disk w) → out.2 ≠ Some OSError).
Proof.
  cbn zeta. unfold VectorStore.index_all. split; [|split; [|split]].
  - intros H1 H2 H3 Hw.
    apply and_then_inv.
    { by apply add_texts_to_store_links. }
    intros w1 Hw1. apply and_then_inv.
    { by apply add_texts_to_store_links. }
    intros w2 Hw2. rewrite add_images_to_store_eq.
    by apply add_texts_to_store_links.
  - intros Hw.
    apply (and_then_outcome (λ o, o.2 ≠ Some OSError → persisted path o.1)).
    { intros _. by apply add_texts_to_store_persisted. }
    intros Hnone1.
    pose proof (add_texts_to_store_persisted uuid4 embeddings_ok w text_summaries
                  texts path Hw) as Hw1.
    rewrite Hnone1 in Hw1. specialize (Hw1 ltac:(done)).
    apply (and_then_outcome (λ o, o.2 ≠ Some OSError → persisted path o.1)).
    { intros _. by apply add_texts_to_store_persisted. }
    intros Hnone2.
    pose proof (add_texts_to_store_persisted uuid4 embeddings_ok _ table_summaries
                  tables path Hw1) as Hw2.
    rewrite Hnone2 in Hw2. specialize (Hw2 ltac:(done)).
    rewrite add_images_to_store_eq. by apply add_texts_to_store_persisted.
  - apply (and_then_inv (extends path w)); [apply add_texts_to_store_extends|].
    intros w1 Hw1. apply (and_then_inv (extends path w)).
    { eapply extends_trans; [done|apply add_texts_to_store_extends]. }
    intros w2 Hw2. rewrite add_images_to_store_eq.
    eapply extends_trans; [done|apply add_texts_to_store_extends].
  - intros Hw.
    apply (and_then_outcome (λ o, o.2 ≠ Some OSError)).
    { intros _. by apply add_texts_to_store_writes. }
    intros _.
    pose proof (add_texts_to_store_extends w text_summaries texts path)
      as (_ & Hfails1 & _).
    apply (and_then_outcome (λ o, o.2 ≠ Some OSError)).
    { intros _. apply add_texts_to_store_writes. by rewrite Hfails1. }
    intros _.
    pose proof (add_texts_to_store_extends
                  (VectorStore.add_texts_to_store uuid4 embeddings_ok w
                     text_summaries texts path).1 table_summaries tables path)
      as (_ & Hfails2 & _).
    rewrite add_images_to_store_eq. apply add_texts_to_store_writes.
    by rewrite Hfails2, Hfails1.
Qed.

(** X12: [index_all], however it ends, keeps the stores linked: with no more
    summaries than originals of each kind, every record of the embedding
    store resolves afterwards if every record did before.  Earlier records
    stay in front, and no file is written but the one at [docstore_path].
    Unless a write of that file has failed, the file holds the docstore as
    it is in memory if it did before, so whatever was indexed before the
    embedding store raised is on disk; and no write fails where the path can
    be written. *)
Theorem index_all_keeps_links (w : VectorStore.world)
    (text_summaries texts table_summaries tables image_summaries images_b64 : list string)
    (path : string) :
  let out :=
    VectorStore.index_all uuid4 embeddings_ok w text_summaries texts
      table_summaries tables image_summaries images_b64 path in
  (length text_summaries ≤ length texts →
   length table_summaries ≤ length tables →
   length image_summaries ≤ length images_b64 →
   linked w → linked out.1)
  ∧ (persisted path w → out.2 ≠ Some OSError → persisted path out.1)
  ∧ VectorStore.chroma w `prefix_of` VectorStore.chroma out.1
  ∧ (∀ p, p ≠ path →
       Utils.files (VectorStore.disk out.1) !! p
       = Utils.files (VectorStore.disk w) !! p)
  ∧ (path ∉ Utils.write_fails (VectorStore.disk w) → out.2 ≠ Some OSError).
Proof.
  cbn zeta.
  destruct (index_all_links w text_summaries texts table_summaries tables
              image_summaries images_b64 path)
    as (Hlinked & Hpersisted & (Hprefix & _ & Hframe) & Hwrites).
  done.
Qed.

End Index.

Lemma linked_empty_world : linked empty_world.
Proof. intros d Hd. by apply elem_of_nil in Hd. Qed.

Lemma add_texts_to_store_keeps_links_witness :
  linked
    (VectorStore.add_texts_to_store (pretty : nat → string) (λ _, true) empty_world
       ["summary"] ["original"] "docstore.pkl").1.
Proof.
  apply (proj1 (add_texts_to_store_keeps_links (pretty : nat → string) (λ _, true)
                  empty_world ["summary"] ["original"] "docstore.pkl")).
  - cbn. lia.
  - apply linked_empty_world.
Defined.

Lemma index_all_keeps_links_witness :
  let out :=
    VectorStore.index_all (pretty : nat → string) (λ _, true) empty_world
      ["s1"; "s2"] ["Revenue grew 10%"; "Staff count is 50"]
      ["s3"] ["<table>...</table>"] [] [] "docstore.pkl" in
  linked out.1 ∧ persisted "docstore.pkl" out.1.
Proof.
  cbn zeta.
  pose proof (index_all_keeps_links (pretty : nat → string) (λ _, true) empty_world
                ["s1"; "s2"] ["Revenue grew 10%"; "Staff count is 50"]
                ["s3"] ["<table>...</table>"] [] [] "docstore.pkl")
    as (Hlinked & Hpersisted & _ & _ & Hwrites).
  split.
  - apply Hlinked; [cbn; lia..|apply linked_empty_world].
  - apply Hpersisted; [reflexivity|]. apply Hwrites. apply not_elem_of_empty.
Defined.

(** Where the file cannot be written, the docstore gets ahead of it: the
    records and the entries are there, and the file is not. *)
Example index_all_write_failure :
  let out :=
    VectorStore.index_all (pretty : nat → string) (λ _, true) read_only_world
      ["s1"] ["Revenue grew 10%"] [] [] [] [] "docstore.pkl" in
  out.2 = Some OSError
  ∧ persisted "docstore.pkl" read_only_world
  ∧ VectorStore.docstore out.1 !! pretty 0 = Some (PyStr "Revenue grew 10%")
  ∧ Utils.load_docstore "docstore.pkl" (VectorStore.disk out.1) = Ok ∅
  ∧ ¬ persisted "docstore.pkl" out.1.
Proof.
  cbn zeta. split; [|split; [|split; [|split]]].
  - vm_compute. reflexivity.
  - reflexivity.
  - vm_compute. reflexivity.
  - reflexivity.
  - unfold persisted. intros Heq.
    apply (f_equal (λ r : result (gmap string pyobj),
                      match r with
                      | Ok m => m !! (pretty 0 : string)
                      | Raise _ => None
                      end)) in Heq.
    vm_compute in Heq. discriminate.
Qed.

(** ** Indexing with too few originals, reading back, restarting *)

(** X13: With fewer originals than summaries [add_texts_to_store] does not
    raise for that: where the file can be written and the embedding store
    takes the records it ends without an exception.  It adds a record for
    every summary, and, with identifiers that are new to the docstore and
    never repeat, the records beyond the last original have an identifier
    that the docstore does not have. *)
Theorem add_texts_to_store_dangling
    (uuid4 : nat → string) (embeddings_ok : list document → bool)
    (w : VectorStore.world) (summaries originals : list string) (path : string) :
  let out := VectorStore.add_texts_to_store uuid4 embeddings_ok w summaries originals path in
  Inj (=) (=) uuid4 →
  (∀ n, VectorStore.docstore w !! uuid4 (VectorStore.uuids_drawn w + n) = None) →
  embeddings_ok
    (VectorStore.summary_docs (VectorStore.fresh_ids uuid4 summaries w) summaries) = true →
  (path ∉ Utils.write_fails (VectorStore.disk w) → out.2 = None)
  ∧ ∀ i, length originals ≤ i < length summaries →
      ∃ d, VectorStore.chroma out.1 !! (length (VectorStore.chroma w) + i) = Some d
           ∧ ¬ resolves out.1 d.
Proof.
  cbn zeta. intros Hinj Hfresh Hok.
  destruct (add_texts_to_store_cases uuid4 embeddings_ok w summaries originals path)
    as [[-> ->]|[(_ & Hfail & _)|(Hne & _ & Hchroma & Hstore & _ & Hdisk)]].
  - split; [done|]. intros i Hi. cbn in Hi. lia.
  - congruence.
  - split; [by destruct Hdisk as [(_ & ? & _)|(? & _)]|]. intros i [Hlo Hhi].
    destruct (lookup_lt_is_Some_2 summaries i Hhi) as [s Hs].
    exists (Document s {[ VectorStore._ID_KEY := uuid4 (VectorStore.uuids_drawn w + i) ]}).
    split.
    + rewrite Hchroma, lookup_app_r by lia.
      replace (length (VectorStore.chroma w) + i - length (VectorStore.chroma w)) with i
        by lia.
      by apply summary_docs_lookup.
    + intros (id & v & Hid & Hv). cbn [metadata] in Hid.
      rewrite lookup_singleton_eq in Hid. injection Hid as <-.
      rewrite Hstore in Hv. unfold kept in Hv.
      rewrite mset_lookup_other, Hfresh in Hv; [done|].
      intros ([id' v'] & Heq & Hin)%list_elem_of_fmap. cbn in Heq. subst id'.
      apply elem_of_zip_lookup in Hin as (j & Hj & Hv').
      pose proof (lookup_lt_Some _ _ _ Hv') as Hjlen. rewrite length_fmap in Hjlen.
      rewrite fresh_ids_lookup in Hj by lia. injection Hj as Hj.
      apply Hinj in Hj. lia.
Qed.

Lemma add_texts_to_store_dangling_witness :
  let out :=
    VectorStore.add_texts_to_store (pretty : nat → string) (λ _, true) empty_world
      ["s1"; "s2"] ["original 1"] "docstore.pkl" in
  out.2 = None
  ∧ ∃ d, VectorStore.chroma out.1 !! 1 = Some d ∧ ¬ resolves out.1 d.
Proof.
  cbn zeta.
  destruct (add_texts_to_store_dangling (pretty : nat → string) (λ _, true) empty_world
              ["s1"; "s2"] ["original 1"] "docstore.pkl" _
              ltac:(intros n; apply lookup_empty) eq_refl) as [Hnone Hdangling].
  split; [apply Hnone, not_elem_of_empty|].
  destruct (Hdangling 1 ltac:(cbn; lia)) as (d & Hd & Hres).
  exists d. split; [exact Hd|exact Hres].
Defined.

(** X14: A record that [add_texts_to_store] has added is read back by the
    retriever as its original: with identifiers that never repeat and one
    original per summary, a search that matches the record of summary [i]
    alone makes the retriever return original [i] and nothing else. *)
Theorem add_then_retrieve
    (uuid4 : nat → string) (embeddings_ok : list document → bool)
    (similarity_search : list document → string → nat → option (list document))
    (w : VectorStore.world) (summaries originals : list string) (path : string)
    (search_kwargs : option nat) (query : string) (i : nat) (s o : string) :
  let out := VectorStore.add_texts_to_store uuid4 embeddings_ok w summaries originals path in
  let r := VectorStore.get_retriever search_kwargs in
  Inj (=) (=) uuid4 →
  length originals = length summaries →
  out.2 = None →
  summaries !! i = Some s → originals !! i = Some o →
  similarity_search (VectorStore.chroma out.1) query (VectorStore.search_k r)
    = Some [Document s {[ VectorStore._ID_KEY
                          := uuid4 (VectorStore.uuids_drawn w + i) ]}] →
  VectorStore.retriever_invoke similarity_search r out.1 query = Ok [PyStr o].
Proof.
  cbn zeta. intros Hinj Hlen Hnone Hs Ho Hsearch.
  destruct (add_texts_to_store_cases uuid4 embeddings_ok w summaries originals path)
    as [[-> _]|[(_ & _ & Hout)|(_ & _ & _ & Hstore & _)]].
  - done.
  - rewrite Hout in Hnone. done.
  - unfold VectorStore.retriever_invoke. rewrite Hsearch, Hstore.
    unfold VectorStore.matched_ids, VectorStore.get_retriever.
    cbn [foldl VectorStore.id_key metadata]. rewrite lookup_singleton_eq.
    rewrite decide_False by apply not_elem_of_nil.
    unfold Utils.mget. cbn [app fmap list_fmap].
    rewrite (mset_lookup_pair _ _ i _ (PyStr o)); [done| |].
    + rewrite fst_zip by (rewrite fresh_ids_length, length_fmap; lia).
      by apply fresh_ids_NoDup.
    + apply elem_of_zip_lookup_2.
      * apply fresh_ids_lookup. by eapply lookup_lt_Some.
      * by rewrite list_lookup_fmap, Ho.
Qed.

Lemma add_then_retrieve_witness :
  VectorStore.retriever_invoke first_records (VectorStore.get_retriever None)
    (VectorStore.add_texts_to_store (pretty : nat → string) (λ _, true) empty_world
       ["Revenue summary"] ["Revenue grew 10%"] "docstore.pkl").1
    "How much did revenue grow?"
  = Ok [PyStr "Revenue grew 10%"].
Proof.
  apply (add_then_retrieve (pretty : nat → string) (λ _, true) first_records
           empty_world ["Revenue summary"] ["Revenue grew 10%"] "docstore.pkl" None
           "How much did revenue grow?" 0 "Revenue summary" "Revenue grew 10%");
    try reflexivity.
  apply _.
Defined.

(** ** The retriever *)

Lemma matched_ids_from (key : string) (sub_docs : list document) (ids : list string) :
  let step := λ (ids : list string) (d : document),
    match metadata d !! key with
    | Some id => if decide (id ∈ ids) then ids else ids ++ [id]
    | None => ids
    end in
  NoDup ids →
  NoDup (foldl step ids sub_docs)
  ∧ (∀ id, id ∈ foldl step ids sub_docs
           ↔ id ∈ ids ∨ ∃ d, d ∈ sub_docs ∧ metadata d !! key = Some id)
  ∧ length (foldl step ids sub_docs) ≤ length ids + length sub_docs.
Proof.
  cbn zeta. revert ids. induction sub_docs as [|d sub_docs IH]; intros ids Hnd.
  - cbn. split; [done|]. split; [|lia].
    intros id. split; [by left|]. intros [?|(d & ?%elem_of_nil & _)]; done.
  - cbn [foldl].
    destruct (metadata d !! key) as [id'|] eqn:Hd.
    + destruct (decide (id' ∈ ids)) as [Hin|Hnin].
      * destruct (IH ids Hnd) as (Hnd' & Hmem & Hlen).
        split; [done|]. split; [|cbn; lia].
        intros id. rewrite Hmem. split.
        -- intros [?|(d' & Hd' & Hid)]; [by left|].
           right. exists d'. split; [by apply elem_of_cons; right|done].
        -- intros [?|(d' & [->|Hd']%elem_of_cons & Hid)]; [by left| |].
           ++ left. congruence.
           ++ right. by exists d'.
      * destruct (IH (ids ++ [id'])) as (Hnd' & Hmem & Hlen).
        { apply NoDup_app. split; [done|]. split; [|apply NoDup_singleton].
          intros x Hx ->%list_elem_of_singleton. done. }
        split; [done|]. split; [|rewrite length_app in Hlen; cbn in *; lia].
        intros id. rewrite Hmem, elem_of_app, list_elem_of_singleton. split.
        -- intros [[?| ->]|(d' & Hd' & Hid)].
           ++ by left.
           ++ right. exists d. split; [by apply elem_of_cons; left|done].
           ++ right. exists d'. split; [by apply elem_of_cons; right|done].
        -- intros [?|(d' & [->|Hd']%elem_of_cons & Hid)].
           ++ by left; left.
           ++ left; right. congruence.
           ++ right. by exists d'.
    + destruct (IH ids Hnd) as (Hnd' & Hmem & Hlen).
      split; [done|]. split; [|cbn; lia].
      intros id. rewrite Hmem. split.
      * intros [?|(d' & Hd' & Hid)]; [by left|].
        right. exists d'. split; [by apply elem_of_cons; right|done].
      * intros [?|(d' & [->|Hd']%elem_of_cons & Hid)]; [by left|congruence|].
        right. by exists d'.
Qed.

(** The identifiers that the retriever looks up are those of the matches
    that have one, each of them once, and no more than there are matches. *)
Lemma matched_ids_distinct (key : string) (sub_docs : list document) :
  NoDup (VectorStore.matched_ids key sub_docs)
  ∧ (∀ id, id ∈ VectorStore.matched_ids key sub_docs
           ↔ ∃ d, d ∈ sub_docs ∧ metadata d !! key = Some id)
  ∧ length (VectorStore.matched_ids key sub_docs) ≤ length sub_docs.
Proof.
  destruct (matched_ids_from key sub_docs [] (NoDup_nil_2)) as (Hnd & Hmem & Hlen).
  split; [done|]. split; [|done].
  intros id. rewrite (Hmem id). split; [|by right].
  intros [?%elem_of_nil|?]; done.
Qed.



Lemma retriever_invoke_found
    (similarity_search : list document → string → nat → option (list document))
    (r : VectorStore.retriever) (w : VectorStore.world) (query : string)
    (sub_docs : list document) :
  similarity_search (VectorStore.chroma w) query (VectorStore.search_k r) = Some sub_docs →
  VectorStore.retriever_invoke similarity_search r w query
  = Ok (omap (kept (VectorStore.docstore w))
          (VectorStore.matched_ids (VectorStore.id_key r) sub_docs)).
Proof.
  intros Hsearch. unfold VectorStore.retriever_invoke.
  by rewrite Hsearch, mget_not_none.
Qed.



(** ** The chains *)

(** X16: The two chains send the same prompt to the model: whenever one of them
    answers, the other gives the same answer, and when one raises, the other
    raises the same exception.  An exception of the retriever comes out of
    the chain as it is, whatever the model would have said, and the model
    raising comes out as an exception too. *)
Theorem chains_agree
    (retriever_invoke : string → result (list pyobj))
    (llm_invoke : list message → option string) (question : string) :
  RagChain.build_rag_chain retriever_invoke llm_invoke question
  = match RagChain.build_rag_chain_with_sources retriever_invoke llm_invoke question with
    | Ok a => Ok (RagChain.answer a)
    | Raise e => Raise e
    end
  ∧ (∀ e, retriever_invoke question = Raise e →
       RagChain.build_rag_chain_with_sources retriever_invoke llm_invoke question
       = Raise e)
  ∧ (∀ raw_docs,
       retriever_invoke question = Ok raw_docs →
       llm_invoke (RagChain.build_prompt (RagChain.parse_docs raw_docs) question) = None →
       RagChain.build_rag_chain_with_sources retriever_invoke llm_invoke question
       = Raise GenerationError).
Proof.
  unfold RagChain.build_rag_chain, RagChain.build_rag_chain_with_sources,
    RagChain._answer_and_sources.
  split; [|split].
  - destruct (retriever_invoke question) as [raw_docs|e]; cbn; [|done].
    by destruct (llm_invoke _).
  - by intros e ->.
  - intros raw_docs -> Hllm. cbn. by rewrite Hllm.
Qed.

Lemma chains_agree_witness :
  RagChain.build_rag_chain_with_sources (λ _, Raise SearchError)
    (λ _, Some "I do not know") "How much did revenue grow?"
  = Raise SearchError
  ∧ RagChain.build_rag_chain_with_sources (λ _, Ok [PyStr "Revenue grew 10%"])
      (λ _, None) "How much did revenue grow?"
    = Raise GenerationError.
Proof.
  split.
  - apply (proj1 (proj2 (chains_agree (λ _, Raise SearchError)
                           (λ _, Some "I do not know") "How much did revenue grow?"))).
    reflexivity.
  - apply (proj2 (proj2 (chains_agree (λ _, Ok [PyStr "Revenue grew 10%"])
                           (λ _, None) "How much did revenue grow?"))
             [PyStr "Revenue grew 10%"]); reflexivity.
Defined.

(** X17: Every retrieved document is accounted for in the answer of the chain
    with sources: the sources and the images counted add up to the documents
    that the retriever returned. *)
Theorem answer_counts_documents
    (retriever_invoke : string → result (list pyobj))
    (llm_invoke : list message → option string) (question : string)
    (raw_docs : list pyobj) (a : RagChain.answer_with_sources) :
  retriever_invoke question = Ok raw_docs →
  RagChain.build_rag_chain_with_sources retriever_invoke llm_invoke question = Ok a →
  length (RagChain.sources a) + RagChain.image_count a = length raw_docs
  ∧ RagChain.sources a
    = List.filter (λ c, negb (Utils.is_base64_image (PyStr c)))
        (RagChain.doc_content <$> raw_docs).
Proof.
  intros Hdocs. unfold RagChain.build_rag_chain_with_sources, RagChain._answer_and_sources.
  rewrite Hdocs. cbn. destruct (llm_invoke _); [|done]. intros [= <-]. cbn.
  unfold RagChain.parse_docs. rewrite parse_docs_from. cbn. split; [|done].
  rewrite (filter_split_length is_image_content). by rewrite length_fmap.
Qed.

Lemma answer_counts_documents_witness :
  ∃ a,
    RagChain.build_rag_chain_with_sources
      (λ _, Ok [PyStr "Revenue grew 10%"; PyStr (repeat_char "A" 300)])
      (λ _, Some "10%") "How much did revenue grow?" = Ok a
    ∧ length (RagChain.sources a) + RagChain.image_count a = 2.
Proof.
  eexists. split; [reflexivity|].
  apply (answer_counts_documents
           (λ _, Ok [PyStr "Revenue grew 10%"; PyStr (repeat_char "A" 300)])
           (λ _, Some "10%") "How much did revenue grow?"
           [PyStr "Revenue grew 10%"; PyStr (repeat_char "A" 300)]); reflexivity.
Defined.

(** ** build_prompt *)

(** X18: The prompt built from retrieved documents is one message: a text part
    that ends with the question, and after it one image part for every
    document that [is_base64_image] takes for an image, in the order of
    retrieval, with the content of the document in a data URL.  The other
    documents add no part. *)
Theorem prompt_of_retrieved_docs (docs : list pyobj) (question : string) :
  ∃ instruction head,
    RagChain.build_prompt (RagChain.parse_docs docs) question
    = [HumanMessage (Parts (
         TextPart instruction
         :: ((λ img_b64, ImageUrlPart ("data:image/jpeg;base64," +:+ img_b64))
               <$> List.filter (λ c, Utils.is_base64_image (PyStr c))
                     (RagChain.doc_content <$> docs))))]
    ∧ instruction = head +:+ "QUESTION:" +:+ LF +:+ question.
Proof.
  unfold RagChain.parse_docs. rewrite parse_docs_from. unfold RagChain.build_prompt.
  cbn [RagChain.images RagChain.texts app].
  eexists _, _. split; reflexivity.
Qed.

(** ** Restart *)

Lemma omap_ext_all {A B} (f g : A → option B) (l : list A) :
  (∀ x, f x = g x) → omap f l = omap g l.
Proof. intros Hfg. induction l as [|x l IH]; [done|]. cbn. by rewrite Hfg, IH. Qed.

Lemma boot_persisted (path : string) (w : VectorStore.world) :
  persisted path w →
  Main._boot path w
  = Ok (VectorStore.World (VectorStore.chroma w)
          (Utils.snapshot (VectorStore.docstore w))
          (VectorStore.disk w) (VectorStore.uuids_drawn w) (VectorStore.trace w)).
Proof. intros Hw. unfold Main._boot. by rewrite Hw. Qed.

(** X19: When the file holds the docstore as it is in memory, a restart changes
    nothing for retrieval: [_boot] loads the stores, and the retriever over
    them returns what the retriever returned before, for every search and
    every query; and every record still resolves if every record did. *)
Theorem boot_same_retrieval
    (similarity_search : list document → string → nat → option (list document))
    (path : string) (w : VectorStore.world) (r : VectorStore.retriever) (query : string) :
  persisted path w →
  ∃ w',
    Main._boot path w = Ok w'
    ∧ VectorStore.retriever_invoke similarity_search r w' query
      = VectorStore.retriever_invoke similarity_search r w query
    ∧ (linked w → linked w').
Proof.
  intros Hw. eexists. split; [by apply boot_persisted|]. split.
  - destruct (similarity_search (VectorStore.chroma w) query (VectorStore.search_k r))
      as [sub_docs|] eqn:Hsearch.
    + rewrite (retriever_invoke_found _ _ _ _ sub_docs) by done.
      rewrite (retriever_invoke_found _ _ w _ sub_docs) by done.
      f_equal. apply omap_ext_all. intros id. apply kept_snapshot.
    + unfold VectorStore.retriever_invoke. cbn. by rewrite Hsearch.
  - intros Hlinked d Hd. destruct (Hlinked d Hd) as (id & v & Hid & Hv).
    exists id, v. split; [done|]. cbn. by rewrite kept_snapshot.
Qed.

Lemma boot_same_retrieval_witness :
  ∃ w',
    Main._boot "docstore.pkl"
      (VectorStore.add_texts_to_store (pretty : nat → string) (λ _, true) empty_world
         ["Revenue summary"] ["Revenue grew 10%"] "docstore.pkl").1 = Ok w'
    ∧ VectorStore.retriever_invoke first_records (VectorStore.get_retriever None) w'
        "How much did revenue grow?"
      = Ok [PyStr "Revenue grew 10%"].
Proof.
  destruct (boot_same_retrieval first_records "docstore.pkl"
              (VectorStore.add_texts_to_store (pretty : nat → string) (λ _, true)
                 empty_world ["Revenue summary"] ["Revenue grew 10%"]
                 "docstore.pkl").1
              (VectorStore.get_retriever None) "How much did revenue grow?")
    as (w' & Hboot & Hsame & _).
  - apply add_texts_to_store_persisted; [reflexivity|].
    apply add_texts_to_store_writes. apply not_elem_of_empty.
  - exists w'. split; [exact Hboot|]. rewrite Hsame. reflexivity.
Defined.

(** A file that holds something else than a pickle makes [_boot] raise. *)
Example boot_on_registry_file :
  Main._boot "indexed_pdfs.json"
    (VectorStore.World [] ∅
       (Utils.Filesystem {[ "indexed_pdfs.json" := Utils.JsonFile ["a.pdf"] ]} ∅) 0 [])
  = Raise UnpicklingError.
Proof. reflexivity. Qed.

(** ** Separating the elements of a document *)

Lemma separate_fold (elements : list Ingestion.element) (acc : list string * list string) :
  foldl Ingestion.separate_step acc elements
  = (acc.1 ++ omap element_text elements, acc.2 ++ omap element_table elements).
Proof.
  revert acc. induction elements as [|el elements IH]; intros [texts tables].
  - cbn. by rewrite !app_nil_r.
  - cbn [foldl]. rewrite IH.
    destruct el as [text [html|]|text origs|]; cbn; by rewrite <- ?app_assoc.
Qed.

Lemma images_inner_fold (origs : list (option Ingestion.orig_metadata))
    (images : list string) :
  foldl (λ images orig, images ++ Ingestion.image_of orig) images origs
  = images ++ (origs ≫= Ingestion.image_of).
Proof.
  revert images. induction origs as [|orig origs IH]; intros images.
  - cbn. by rewrite app_nil_r.
  - cbn [foldl]. rewrite IH. cbn. by rewrite <- app_assoc.
Qed.

Lemma images_fold (chunks : list Ingestion.element) (images : list string) :
  foldl (λ images chunk,
           match chunk with
           | Ingestion.CompositeElement _ (Some orig_elements) =>
               foldl (λ images orig, images ++ Ingestion.image_of orig)
                 images orig_elements
           | _ => images
           end) images chunks
  = images ++ (chunks ≫= element_images).
Proof.
  revert images. induction chunks as [|chunk chunks IH]; intros images.
  - cbn. by rewrite app_nil_r.
  - cbn [foldl]. rewrite IH.
    destruct chunk as [text html|text [origs|]|]; cbn; try done.
    by rewrite images_inner_fold, <- app_assoc.
Qed.

Lemma b64encode_nonempty (data : list Byte.byte) :
  data ≠ [] → Base64.b64encode data ≠ "".
Proof. destruct data as [|b0 [|b1 [|b2 rest]]]; done. Qed.

Lemma image_of_nonempty (orig : option Ingestion.orig_metadata) (img : string) :
  img ∈ Ingestion.image_of orig → img ≠ "".
Proof.
  assert (Hpayload : ∀ m, img ∈ Ingestion.image_of_payload m → img ≠ "").
  { intros m. unfold Ingestion.image_of_payload.
    destruct (Ingestion.image_payload m) as [|payload|payload|];
      try by intros ?%elem_of_nil.
    - destruct (decide (payload = "")); [by intros ?%elem_of_nil|].
      by intros ->%list_elem_of_singleton.
    - destruct (decide (payload = [])); [by intros ?%elem_of_nil|].
      intros ->%list_elem_of_singleton. by apply b64encode_nonempty. }
  destruct orig as [m|]; [|by intros ?%elem_of_nil]. cbn.
  destruct (Ingestion.image_base64 m) as [|image_b64| |]; try apply Hpayload.
  destruct (decide (image_b64 = "")); [apply Hpayload|].
  by intros ->%list_elem_of_singleton.
Qed.

(** X20: [separate_elements] takes the text of every [CompositeElement] for
    [texts] and, for every [Table], its HTML when it has some and its text
    otherwise for [tables], each list in the order of the elements; elements
    of other classes are left out.  The images are those of the elements
    inside the [CompositeElement]s, in order, and none of them is an empty
    string. *)
Theorem separate_elements_kinds (elements : list Ingestion.element) :
  Ingestion.separate_elements elements
  = (omap element_text elements, omap element_table elements,
     elements ≫= element_images)
  ∧ length (omap element_text elements) + length (omap element_table elements)
    ≤ length elements
  ∧ (∀ img, img ∈ Ingestion.get_images_base64 elements → img ≠ "")
  ∧ (∀ m image_b64,
       Ingestion.image_base64 m = Ingestion.AttrStr image_b64 → image_b64 ≠ "" →
       Ingestion.image_of (Some m) = [image_b64]).
Proof.
  split; [|split; [|split]].
  - unfold Ingestion.separate_elements, Ingestion.get_images_base64.
    by rewrite separate_fold, images_fold.
  - induction elements as [|el elements IH]; [done|].
    destruct el as [text [html|]|text origs|]; cbn in *; lia.
  - intros img. unfold Ingestion.get_images_base64. rewrite images_fold. cbn.
    intros (el & Himg & _)%list_elem_of_bind.
    destruct el as [text html|text [origs|]|]; cbn in Himg;
      try by apply elem_of_nil in Himg.
    apply list_elem_of_bind in Himg as (orig & Himg & _).
    by eapply image_of_nonempty.
  - intros m image_b64 Hm Hne. cbn. rewrite Hm. by rewrite decide_False.
Qed.

Lemma separate_elements_kinds_witness :
  Ingestion.image_of
    (Some (Ingestion.OrigMetadata (Ingestion.AttrStr "QUJD")
             (Ingestion.AttrBytes [Byte.x41])))
  = ["QUJD"].
Proof.
  apply (proj2 (proj2 (proj2 (separate_elements_kinds []))));
    [reflexivity|discriminate].
Defined.

Lemma image_of_origin (orig : option Ingestion.orig_metadata) (img : string) :
  img ∈ Ingestion.image_of orig →
  ∃ m, orig = Some m
       ∧ (Ingestion.image_base64 m = Ingestion.AttrStr img
          ∨ Ingestion.image_payload m = Ingestion.AttrStr img
          ∨ ∃ payload,
              Ingestion.image_payload m = Ingestion.AttrBytes payload
              ∧ payload ≠ [] ∧ img = Base64.b64encode payload).
Proof.
  destruct orig as [m|]; [|by intros ?%elem_of_nil]. intros Himg. exists m.
  split; [done|].
  assert (Hpayload : img ∈ Ingestion.image_of_payload m →
    Ingestion.image_payload m = Ingestion.AttrStr img
    ∨ ∃ payload,
        Ingestion.image_payload m = Ingestion.AttrBytes payload
        ∧ payload ≠ [] ∧ img = Base64.b64encode payload).
  { unfold Ingestion.image_of_payload.
    destruct (Ingestion.image_payload m) as [|payload|payload|];
      try by intros ?%elem_of_nil.
    - destruct (decide (payload = "")); [by intros ?%elem_of_nil|].
      intros ->%list_elem_of_singleton. by left.
    - destruct (decide (payload = [])); [by intros ?%elem_of_nil|].
      intros ->%list_elem_of_singleton. right. by exists payload. }
  cbn in Himg.
  destruct (Ingestion.image_base64 m) as [|image_b64| |]; try (right; by apply Hpayload).
  destruct (decide (image_b64 = "")); [right; by apply Hpayload|].
  apply list_elem_of_singleton in Himg as ->. by left.
Qed.

(** X21: Every image that [get_images_base64] returns comes from an element
    inside a [CompositeElement] of the input: it is the string of its
    [image_base64] or of its [image_payload], taken as it is, or the encoding
    of the bytes of its [image_payload]; in that case [is_base64_image] knows
    it again as an image at retrieval exactly when there are at least 148
    bytes. *)
Theorem extracted_image_origin (elements : list Ingestion.element) (img : string) :
  img ∈ Ingestion.get_images_base64 elements →
  ∃ text origs m,
    Ingestion.CompositeElement text (Some origs) ∈ elements
    ∧ Some m ∈ origs
    ∧ (Ingestion.image_base64 m = Ingestion.AttrStr img
       ∨ Ingestion.image_payload m = Ingestion.AttrStr img
       ∨ ∃ payload,
           Ingestion.image_payload m = Ingestion.AttrBytes payload
           ∧ payload ≠ [] ∧ img = Base64.b64encode payload
           ∧ (Utils.is_base64_image (PyStr img) = true ↔ 148 ≤ length payload)).
Proof.
  unfold Ingestion.get_images_base64. rewrite images_fold. cbn [app].
  intros (el & Himg & Hel)%list_elem_of_bind.
  destruct el as [text html|text [origs|]|]; cbn in Himg;
    try by apply elem_of_nil in Himg.
  apply list_elem_of_bind in Himg as (orig & Himg & Horig).
  apply image_of_origin in Himg as (m & -> & Hm).
  exists text, origs, m. split; [done|]. split; [done|].
  destruct Hm as [?|[?|(payload & ? & ? & ->)]]; [by left|by right; left|].
  right; right. exists payload. split; [done|]. split; [done|]. split; [done|].
  apply b64encode_image_lemma.
Qed.

Lemma extracted_image_origin_witness :
  ∃ text origs m,
    Ingestion.CompositeElement text (Some origs)
    ∈ [Ingestion.Table "t" None;
       Ingestion.CompositeElement "Revenue grew 10%"
         (Some [Some (Ingestion.OrigMetadata Ingestion.AttrNone
                        (Ingestion.AttrBytes [Byte.x41; Byte.x42; Byte.x43]))])]
    ∧ Some m ∈ origs
    ∧ Ingestion.image_payload m = Ingestion.AttrBytes [Byte.x41; Byte.x42; Byte.x43].
Proof.
  destruct (extracted_image_origin
              [Ingestion.Table "t" None;
               Ingestion.CompositeElement "Revenue grew 10%"
                 (Some [Some (Ingestion.OrigMetadata Ingestion.AttrNone
                                (Ingestion.AttrBytes [Byte.x41; Byte.x42; Byte.x43]))])]
              "QUJD") as (text & origs & m & Hel & Hm & Horigin).
  - apply list_elem_of_singleton. reflexivity.
  - exists text, origs, m. split; [exact Hel|]. split; [exact Hm|].
    apply elem_of_cons in Hel as [?|Hel]; [done|].
    apply list_elem_of_singleton in Hel. injection Hel as -> ->.
    apply list_elem_of_singleton in Hm. injection Hm as ->. reflexivity.
Defined.

(** ** Uploading a document *)

Section Upload.

Variable uuid4 : nat → string.
Variable embeddings_ok : list document → bool.
Variable llm_texts llm_tables llm_images : nat → list message → option string.
Variable DOCSTORE_PATH INDEXED_PDFS_PATH : string.

Local Abbreviation upload_elements :=
  (Main.upload_elements uuid4 embeddings_ok llm_texts llm_tables llm_images
     DOCSTORE_PATH INDEXED_PDFS_PATH).
Local Abbreviation upload_pdf :=
  (Main._upload_pdf uuid4 embeddings_ok llm_texts llm_tables llm_images
     DOCSTORE_PATH INDEXED_PDFS_PATH).





End Upload.


(** With the docstore and the registry at one path, the docstore is written
    over the registry, reading the registry then raises, and the name is not
    entered. *)
Example upload_pdf_one_path :
  let out :=
    Main._upload_pdf (pretty : nat → string) (λ _, true)
      (λ _ _, Some "summary") (λ _ _, Some "summary") (λ _ _, Some "summary")
      "store" "store"
      true "report.pdf" "n"
      (Ok [Ingestion.CompositeElement "Revenue grew 10%" None])
      (VectorStore.World [] ∅
         (Utils.Filesystem {[ "store" := Utils.JsonFile ["a.pdf"] ]} ∅) 0 []) in
  out.2 = Some ValueError
  ∧ Utils.files (VectorStore.disk out.1) !! "store"
    = Some (Utils.PickleFile {[ pretty 0 := PyStr "Revenue grew 10%" ]}).
Proof. cbn zeta. split; vm_compute; reflexivity. Qed.

Example b64encode_examples :
  Base64.b64encode [Byte.x41] = "QQ=="
  ∧ Base64.b64encode [Byte.x41; Byte.x42] = "QUI="
  ∧ Base64.b64encode [Byte.x41; Byte.x42; Byte.x43] = "QUJD"
  ∧ Base64.b64encode [Byte.xff; Byte.xfe; Byte.xfd; Byte.x00] = "//79AA==".
Proof. repeat split; reflexivity. Qed.



Lemma registry_order_irrelevant_witness :
  ∃ fs_a after,
    Utils.save_indexed_pdf "a.pdf" "indexed_pdfs.json" (Utils.Filesystem ∅ ∅) = Ok fs_a
    ∧ Utils.load_indexed_pdfs "indexed_pdfs.json" fs_a = Ok after
    ∧ "a.pdf" ∈ after.
Proof.
  assert (Hload0 : Utils.load_indexed_pdfs "indexed_pdfs.json" (Utils.Filesystem ∅ ∅)
                   = Ok ∅) by reflexivity.
  destruct (proj2 (registry_order_irrelevant "a.pdf" "b.pdf" "indexed_pdfs.json"
                     (Utils.Filesystem ∅ ∅)) ∅ Hload0 (not_elem_of_empty _))
    as (fs_a & after & Hsave & Hload & Hin & _).
  exists fs_a, after. split; [exact Hsave|]. split; [exact Hload|exact Hin].
Defined.
